(** * F&O analytics loader (scripts/load_data_duckdb.py)

    A shallow embedding of the DuckDB loading script: the four tables of
    [create_duckdb_schema], the temporary table [raw_data] and the three
    INSERT ... SELECT statements of [load_data_duckdb], written as functions
    on lists of rows with nullable columns.

    Conventions of the model
    - a nullable column is an [option]; [None] is SQL NULL;
    - comparisons follow SQL's three-valued logic ([Sql.eq], [Sql.and3]); a
      join or WHERE condition keeps a row only when it evaluates to TRUE;
    - DECIMAL(p,2) values are integers counting hundredths;
    - a table is the list of its rows in insertion order.  The engine is
      free in the order in which a SELECT hands over its rows, which
      ROW_NUMBER() OVER () then numbers from 1, and in the order in which
      an INSERT takes the rows it is given.  The statements come twice:
      with that order as a parameter ([Order], the definitions ending in
      [_by]), and for the order of the file ([file_order]: DISTINCT keeps
      first occurrences, joins follow their left input), which is the
      instance the plain names stand for;
    - every [conn.execute] is its own transaction (DuckDB autocommit): a
      statement that raises leaves the effects of the earlier ones in place;
    - the input is the list of lines [read_csv_auto] delivers, each cell
      text or NULL (lines the reader rejects under ignore_errors are not
      in it); the temporary table [raw_data] lives in the connection and
      is passed from the statement that creates it to those that read it;
    - surrogate keys are unbounded integers: the range of the INTEGER key
      columns is not modelled. *)

From Stdlib Require Import List ZArith String Ascii Bool Lia Permutation.
Import ListNotations.
Open Scope Z_scope.

(* ================================================================== *)
(** ** SQL primitives *)

Module Sql.

(** A condition evaluates to TRUE, FALSE or NULL. *)
Definition bool3 := option bool.

Definition eq {A : Type} (eqb : A -> A -> bool) (a b : option A) : bool3 :=
  match a, b with
  | Some x, Some y => Some (eqb x y)
  | _, _ => None
  end.

Definition and3 (a b : bool3) : bool3 :=
  match a, b with
  | Some false, _ => Some false
  | _, Some false => Some false
  | Some true, Some true => Some true
  | _, _ => None
  end.

(** ON, WHERE and CASE WHEN keep a row only for TRUE. *)
Definition is_true (b : bool3) : bool :=
  match b with
  | Some true => true
  | _ => false
  end.

(** [x IS NOT NULL] *)
Definition is_not_null {A : Type} (a : option A) : bool :=
  match a with
  | Some _ => true
  | None => false
  end.

(** [COALESCE(x, d)] with a constant [d] *)
Definition coalesce {A : Type} (a : option A) (d : A) : option A :=
  match a with
  | Some x => Some x
  | None => Some d
  end.

(** [s LIKE '%pat%'] for a pattern without wildcards of its own:
    [pat] occurs somewhere in [s] (case sensitive). *)
Fixpoint contains (pat s : string) : bool :=
  String.prefix pat s ||
  match s with
  | EmptyString => false
  | String _ s' => contains pat s'
  end.

Definition like_contains (pat : string) (s : option string) : bool3 :=
  option_map (contains pat) s.

(** SELECT DISTINCT: NULLs compare equal, first occurrence kept. *)
Fixpoint distinct {A : Type} (eq_dec : forall x y : A, {x = y} + {x <> y})
         (l : list A) : list A :=
  match l with
  | [] => []
  | x :: xs =>
      x :: filter (fun y => if eq_dec x y then false else true)
                  (distinct eq_dec xs)
  end.

(** ROW_NUMBER() OVER (): 1, 2, 3, ... in the order of the input. *)
Fixpoint number_from {A : Type} (n : Z) (l : list A) : list (Z * A) :=
  match l with
  | [] => []
  | x :: xs => (n, x) :: number_from (n + 1) xs
  end.

Definition row_number {A : Type} (l : list A) : list (Z * A) :=
  number_from 1 l.

(** INSERT ... ON CONFLICT DO NOTHING: the candidate rows are taken one
    by one; a row that collides with a row already in the table (one that
    was there before, or one this statement has just inserted) on the
    primary key or on a UNIQUE constraint is skipped. *)
Fixpoint insert_do_nothing {A : Type} (conflict : A -> A -> bool)
         (tbl cands : list A) : list A :=
  match cands with
  | [] => tbl
  | c :: cs =>
      if existsb (conflict c) tbl
      then insert_do_nothing conflict tbl cs
      else insert_do_nothing conflict (tbl ++ [c]) cs
  end.

(** Inner join: for each left row, the right rows the ON condition
    accepts. *)
Definition join {A B : Type} (on : A -> B -> bool3)
           (l : list A) (r : list B) : list (A * B) :=
  flat_map (fun a => map (fun b => (a, b)) (filter (fun b => is_true (on a b)) r)) l.

(** [SUM(x)]: NULLs are skipped; the sum of no value is NULL. *)
Definition sum (l : list (option Z)) : option Z :=
  fold_left (fun acc x =>
               match x with
               | None => acc
               | Some v => Some (match acc with Some a => a + v | None => v end)
               end) l None.

End Sql.

(* ================================================================== *)
(** ** Dates and [strptime(text, '%d-%b-%Y')] *)

Record Date := mkDate { year : Z; month : Z; day : Z }.

Record Timestamp := mkTimestamp { ts_date : Date; ts_micros : Z }.

Definition Date_eq_dec (a b : Date) : {a = b} + {a <> b}.
Proof. decide equality; apply Z.eq_dec. Defined.

Definition Date_eqb (a b : Date) : bool :=
  if Date_eq_dec a b then true else false.

(** [CAST(ts AS DATE)] *)
Definition date_of_timestamp (t : Timestamp) : Date := ts_date t.

Module Strptime.

Definition digit_of (c : ascii) : option Z :=
  let n := Z.of_nat (nat_of_ascii c) in
  if (48 <=? n) && (n <=? 57) then Some (n - 48) else None.

Fixpoint digits_acc (acc : Z) (s : string) : option Z :=
  match s with
  | EmptyString => Some acc
  | String c s' =>
      match digit_of c with
      | Some d => digits_acc (10 * acc + d) s'
      | None => None
      end
  end.

(** A non-empty run of decimal digits. *)
Definition number (s : string) : option Z :=
  match s with
  | EmptyString => None
  | _ => digits_acc 0 s
  end.

Definition lower (c : ascii) : ascii :=
  let n := nat_of_ascii c in
  if (Nat.leb 65 n && Nat.leb n 90)%bool then ascii_of_nat (n + 32) else c.

Fixpoint lowercase (s : string) : string :=
  match s with
  | EmptyString => EmptyString
  | String c s' => String (lower c) (lowercase s')
  end.

(** %b: abbreviated month name, matched without regard to case. *)
Definition month_of (s : string) : option Z :=
  let m := lowercase s in
  if String.eqb m "jan" then Some 1 else
  if String.eqb m "feb" then Some 2 else
  if String.eqb m "mar" then Some 3 else
  if String.eqb m "apr" then Some 4 else
  if String.eqb m "may" then Some 5 else
  if String.eqb m "jun" then Some 6 else
  if String.eqb m "jul" then Some 7 else
  if String.eqb m "aug" then Some 8 else
  if String.eqb m "sep" then Some 9 else
  if String.eqb m "oct" then Some 10 else
  if String.eqb m "nov" then Some 11 else
  if String.eqb m "dec" then Some 12 else None.

Definition leap (y : Z) : bool :=
  ((y mod 4 =? 0) && negb (y mod 100 =? 0)) || (y mod 400 =? 0).

Definition days_in_month (y m : Z) : Z :=
  if m =? 2 then (if leap y then 29 else 28)
  else if (m =? 4) || (m =? 6) || (m =? 9) || (m =? 11) then 30
  else 31.

(** The fields between the '-' separators. *)
Fixpoint fields (cur : string) (s : string) : list string :=
  match s with
  | EmptyString => [cur]
  | String c s' =>
      if Ascii.eqb c "-"%char
      then cur :: fields EmptyString s'
      else fields (cur ++ String c EmptyString)%string s'
  end.

(** White space around the text is skipped. *)
Definition is_space (c : ascii) : bool :=
  let n := nat_of_ascii c in
  Nat.eqb n 32 || (Nat.leb 9 n && Nat.leb n 13).

Fixpoint skip_spaces (s : string) : string :=
  match s with
  | String c s' => if is_space c then skip_spaces s' else s
  | EmptyString => EmptyString
  end.

Fixpoint drop_trailing_spaces (s : string) : string :=
  match s with
  | EmptyString => EmptyString
  | String c s' =>
      match drop_trailing_spaces s' with
      | EmptyString => if is_space c then EmptyString else String c EmptyString
      | rest => String c rest
      end
  end.

Definition trim (s : string) : string := drop_trailing_spaces (skip_spaces s).

(** [strptime(s, '%d-%b-%Y')]: a day of one or two digits, an
    abbreviated month and a year of one to four digits, separated by
    '-', with white space allowed before and after.  [None] stands for
    the exception the function raises when the text does not match the
    format or names no calendar day ([try_strptime] is the variant that
    returns NULL instead). *)
Definition parse (s : string) : option Timestamp :=
  match fields EmptyString (trim s) with
  | [d; m; y] =>
      match number d, month_of m, number y with
      | Some dd, Some mm, Some yy =>
          if (Z.of_nat (String.length d) <=? 2)
             && (Z.of_nat (String.length y) <=? 4) && (1 <=? dd)
             && (dd <=? days_in_month yy mm)
          then Some (mkTimestamp (mkDate yy mm dd) 0)
          else None
      | _, _, _ => None
      end
  | _ => None
  end.

End Strptime.

(* ================================================================== *)
(** ** The tables of [create_duckdb_schema] *)

(** Primary-key columns are never NULL; every other column is nullable,
    as declared. *)

Record Exchange := mkExchange {
  exc_id : Z;                       (* exchange_id INTEGER PRIMARY KEY *)
  exc_code : option string;         (* exchange_code VARCHAR UNIQUE *)
  exc_name : option string;
  exc_country : option string;
  exc_is_active : option bool
}.

Record Instrument := mkInstrument {
  ins_id : Z;                       (* instrument_id INTEGER PRIMARY KEY *)
  ins_exchange_id : option Z;
  ins_type : option string;         (* instrument_type *)
  ins_symbol : option string;
  ins_series : option string
}.

Record Expiry := mkExpiry {
  exp_id : Z;                       (* expiry_id INTEGER PRIMARY KEY *)
  exp_instrument_id : option Z;
  exp_date : option Date;           (* expiry_date *)
  exp_strike_price : option Z;      (* DECIMAL(12,2), in hundredths *)
  exp_option_type : option string
}.

Record Trade := mkTrade {
  trd_id : Z;                       (* trade_id INTEGER PRIMARY KEY *)
  trd_expiry_id : option Z;
  trd_instrument_id : option Z;
  trd_date : option Date;           (* trade_date *)
  trd_open : option Z;
  trd_high : option Z;
  trd_low : option Z;
  trd_close : option Z;
  trd_settle_price : option Z;
  trd_contracts : option Z;
  trd_value_in_lakh : option Z;
  trd_open_interest : option Z;
  trd_change_in_oi : option Z;
  trd_timestamp : option Timestamp
}.

(** The store behind the connection. *)
Record DB := mkDB {
  exchanges : list Exchange;
  instruments : list Instrument;
  expiries : list Expiry;
  trades : list Trade;
  indexes : list string
}.

Definition empty_db : DB := mkDB [] [] [] [] [].

(** One row of the temporary table [raw_data]. *)
Record RawRow := mkRawRow {
  raw_instrument : option string;
  raw_symbol : option string;
  raw_expiry_dt : option Date;
  raw_strike_pr : option Z;
  raw_option_typ : option string;
  raw_open : option Z;
  raw_high : option Z;
  raw_low : option Z;
  raw_close : option Z;
  raw_settle_pr : option Z;
  raw_contracts : option Z;
  raw_val_inlakh : option Z;
  raw_open_int : option Z;
  raw_chg_in_oi : option Z;
  raw_timestamp : option Timestamp
}.

(** One line of the CSV file as [read_csv_auto] delivers it: a text cell,
    or NULL for a blank one.  The columns are text columns, as they are
    for a file in the format of the script (a date like 29-Aug-2019 is
    not a date to the reader); a file whose date columns the reader types
    itself is outside this model. *)
Record CsvRow := mkCsvRow {
  INSTRUMENT : option string;
  SYMBOL : option string;
  EXPIRY_DT : option string;
  STRIKE_PR : option string;
  OPTION_TYP : option string;
  OPEN : option string;
  HIGH : option string;
  LOW : option string;
  CLOSE : option string;
  SETTLE_PR : option string;
  CONTRACTS : option string;
  VAL_INLAKH : option string;
  OPEN_INT : option string;
  CHG_IN_OI : option string;
  TIMESTAMP : option string
}.

(** The engine's text-to-number conversions behind [TRY_CAST]: the value,
    or [None] where the conversion fails. *)
Class TryCast := {
  to_bigint : string -> option Z;         (* AS BIGINT *)
  to_decimal_12_2 : string -> option Z;   (* AS DECIMAL(12,2), hundredths *)
  to_decimal_15_2 : string -> option Z    (* AS DECIMAL(15,2), hundredths *)
}.

(* ================================================================== *)
(** ** Statements, errors and the connection *)

Inductive error :=
| InvalidInputError     (* strptime could not convert its argument; the
                           engine words some of these failures as a
                           Conversion Error, which aborts the statement
                           in the same way *)
| ConstraintError       (* duplicate primary key without ON CONFLICT *)
| CatalogError.         (* CREATE INDEX on an existing name *)

(** A statement run on the connection: the store afterwards, and either
    the exception raised or the result. *)
Definition Exec (A : Type) : Type := DB -> DB * (error + A).

Definition ret {A : Type} (a : A) : Exec A := fun db => (db, inr a).

Definition raise {A : Type} (e : error) : Exec A := fun db => (db, inl e).

Definition bind {A B : Type} (m : Exec A) (k : A -> Exec B) : Exec B :=
  fun db =>
    match m db with
    | (db', inr a) => k a db'
    | (db', inl e) => (db', inl e)
    end.

(** A statement that cannot raise. *)
Definition execute (f : DB -> DB) : Exec unit := fun db => (f db, inr tt).

(** A statement that either raises, leaving the store as it was, or
    commits. *)
Definition execute_or_raise (f : DB -> error + DB) : Exec unit :=
  fun db =>
    match f db with
    | inl e => (db, inl e)
    | inr db' => (db', inr tt)
    end.

Declare Scope exec_scope.
Delimit Scope exec_scope with exec.
Notation "x <- m ;; k" := (bind m (fun x => k))
  (at level 61, m at next level, right associativity) : exec_scope.
Notation "m ;; k" := (bind m (fun _ => k))
  (at level 61, right associativity) : exec_scope.

(* ------------------------------------------------------------------ *)
(** *** create_duckdb_schema *)

(** PRIMARY KEY (exchange_id) or UNIQUE (exchange_code). *)
Definition exchange_conflict (c x : Exchange) : bool :=
  (exc_id c =? exc_id x)
  || Sql.is_true (Sql.eq String.eqb (exc_code c) (exc_code x)).

Definition NSE : Exchange :=
  mkExchange 1 (Some "NSE"%string)
    (Some "National Stock Exchange of India"%string) (Some "India"%string)
    (Some true).

Definition BSE : Exchange :=
  mkExchange 2 (Some "BSE"%string)
    (Some "Bombay Stock Exchange"%string) (Some "India"%string) (Some true).

Definition MCX : Exchange :=
  mkExchange 3 (Some "MCX"%string)
    (Some "Multi Commodity Exchange of India"%string) (Some "India"%string)
    (Some true).

Definition seed_exchanges : list Exchange := [NSE; BSE; MCX].

(** The CREATE TABLE IF NOT EXISTS statements leave existing tables as
    they are; a table that does not exist yet is the empty list. *)
Definition create_duckdb_schema : Exec unit :=
  execute (fun db =>
    mkDB (Sql.insert_do_nothing exchange_conflict (exchanges db) seed_exchanges)
         (instruments db) (expiries db) (trades db) (indexes db)).

(* ------------------------------------------------------------------ *)
(** *** INSERT INTO instruments *)

Definition symbol_key : Type := option string * option string.

Definition symbol_key_eq_dec (a b : symbol_key) : {a = b} + {a <> b}.
Proof. repeat decide equality. Defined.

(** PRIMARY KEY (instrument_id) or
    UNIQUE (exchange_id, instrument_type, symbol); a tuple with a NULL
    in it collides with nothing. *)
Definition instrument_conflict (c x : Instrument) : bool :=
  (ins_id c =? ins_id x)
  || Sql.is_true
       (Sql.and3
          (Sql.and3 (Sql.eq Z.eqb (ins_exchange_id c) (ins_exchange_id x))
                    (Sql.eq String.eqb (ins_type c) (ins_type x)))
          (Sql.eq String.eqb (ins_symbol c) (ins_symbol x))).

(** CASE WHEN instrument LIKE '%OPT%' THEN 'OPT' ELSE 'FUT' END *)
Definition series_of (instrument : option string) : string :=
  if Sql.is_true (Sql.like_contains "OPT" instrument) then "OPT" else "FUT".

(** SELECT DISTINCT instrument, symbol FROM raw_data *)
Definition distinct_symbols (raw : list RawRow) : list symbol_key :=
  Sql.distinct symbol_key_eq_dec
    (map (fun r => (raw_instrument r, raw_symbol r)) raw).

Definition instrument_of (p : Z * symbol_key) : Instrument :=
  mkInstrument (fst p) (Some 1) (fst (snd p)) (snd (snd p))
               (Some (series_of (fst (snd p)))).

Definition instrument_rows (raw : list RawRow) : list Instrument :=
  map instrument_of (Sql.row_number (distinct_symbols raw)).

Definition insert_instruments (raw : list RawRow) (db : DB) : DB :=
  mkDB (exchanges db)
       (Sql.insert_do_nothing instrument_conflict (instruments db)
                              (instrument_rows raw))
       (expiries db) (trades db) (indexes db).

(* ------------------------------------------------------------------ *)
(** *** INSERT INTO expiries *)

Record Contract := mkContract {
  con_instrument : option string;
  con_symbol : option string;
  con_expiry_dt : option Date;
  con_strike_pr : option Z;
  con_option_typ : option string
}.

Definition Contract_eq_dec (a b : Contract) : {a = b} + {a <> b}.
Proof. repeat decide equality. Defined.

Definition contract_of (r : RawRow) : Contract :=
  mkContract (raw_instrument r) (raw_symbol r) (raw_expiry_dt r)
             (raw_strike_pr r) (raw_option_typ r).

(** SELECT DISTINCT instrument, symbol, expiry_dt, strike_pr, option_typ
    FROM raw_data WHERE expiry_dt IS NOT NULL *)
Definition distinct_contracts (raw : list RawRow) : list Contract :=
  Sql.distinct Contract_eq_dec
    (map contract_of (filter (fun r => Sql.is_not_null (raw_expiry_dt r)) raw)).

(** ON r.instrument = i.instrument_type AND r.symbol = i.symbol *)
Definition on_instrument (instrument symbol : option string) (i : Instrument)
  : Sql.bool3 :=
  Sql.and3 (Sql.eq String.eqb instrument (ins_type i))
           (Sql.eq String.eqb symbol (ins_symbol i)).

(** PRIMARY KEY (expiry_id) or
    UNIQUE (instrument_id, expiry_date, strike_price, option_type). *)
Definition expiry_conflict (c x : Expiry) : bool :=
  (exp_id c =? exp_id x)
  || Sql.is_true
       (Sql.and3
          (Sql.and3
             (Sql.and3 (Sql.eq Z.eqb (exp_instrument_id c) (exp_instrument_id x))
                       (Sql.eq Date_eqb (exp_date c) (exp_date x)))
             (Sql.eq Z.eqb (exp_strike_price c) (exp_strike_price x)))
          (Sql.eq String.eqb (exp_option_type c) (exp_option_type x))).

Definition expiry_of (p : Z * (Contract * Instrument)) : Expiry :=
  let r := fst (snd p) in
  let i := snd (snd p) in
  mkExpiry (fst p) (Some (ins_id i)) (con_expiry_dt r)
           (Sql.coalesce (con_strike_pr r) 0)
           (Sql.coalesce (con_option_typ r) "XX"%string).

Definition expiry_rows (raw : list RawRow) (db : DB) : list Expiry :=
  map expiry_of
      (Sql.row_number
         (Sql.join (fun r i => on_instrument (con_instrument r) (con_symbol r) i)
                   (distinct_contracts raw) (instruments db))).

Definition insert_expiries (raw : list RawRow) (db : DB) : DB :=
  mkDB (exchanges db) (instruments db)
       (Sql.insert_do_nothing expiry_conflict (expiries db) (expiry_rows raw db))
       (trades db) (indexes db).

(* ------------------------------------------------------------------ *)
(** *** INSERT INTO trades *)

(** ON ex.instrument_id = i.instrument_id AND ex.expiry_date = r.expiry_dt
       AND COALESCE(ex.strike_price, 0) = COALESCE(r.strike_pr, 0)
       AND COALESCE(ex.option_type, 'XX') = COALESCE(r.option_typ, 'XX') *)
Definition on_expiry (ri : RawRow * Instrument) (ex : Expiry) : Sql.bool3 :=
  let r := fst ri in
  let i := snd ri in
  Sql.and3
    (Sql.and3
       (Sql.and3 (Sql.eq Z.eqb (exp_instrument_id ex) (Some (ins_id i)))
                 (Sql.eq Date_eqb (exp_date ex) (raw_expiry_dt r)))
       (Sql.eq Z.eqb (Sql.coalesce (exp_strike_price ex) 0)
                     (Sql.coalesce (raw_strike_pr r) 0)))
    (Sql.eq String.eqb (Sql.coalesce (exp_option_type ex) "XX"%string)
                       (Sql.coalesce (raw_option_typ r) "XX"%string)).

Definition trade_of (p : Z * (RawRow * Instrument * Expiry)) : Trade :=
  let r := fst (fst (snd p)) in
  let i := snd (fst (snd p)) in
  let ex := snd (snd p) in
  mkTrade (fst p) (Some (exp_id ex)) (Some (ins_id i))
          (option_map date_of_timestamp (raw_timestamp r))
          (Sql.coalesce (raw_open r) 0)
          (Sql.coalesce (raw_high r) 0)
          (Sql.coalesce (raw_low r) 0)
          (Sql.coalesce (raw_close r) 0)
          (Sql.coalesce (raw_settle_pr r) 0)
          (Sql.coalesce (raw_contracts r) 0)
          (Sql.coalesce (raw_val_inlakh r) 0)
          (Sql.coalesce (raw_open_int r) 0)
          (Sql.coalesce (raw_chg_in_oi r) 0)
          (raw_timestamp r).

(** FROM raw_data r JOIN instruments i ON ... JOIN expiries ex ON ...
    WHERE r.timestamp IS NOT NULL *)
Definition trade_source (raw : list RawRow) (db : DB)
  : list (RawRow * Instrument * Expiry) :=
  filter (fun p => Sql.is_not_null (raw_timestamp (fst (fst p))))
         (Sql.join on_expiry
            (Sql.join (fun r i => on_instrument (raw_instrument r) (raw_symbol r) i)
                      raw (instruments db))
            (expiries db)).

Definition trade_rows (raw : list RawRow) (db : DB) : list Trade :=
  map trade_of (Sql.row_number (trade_source raw db)).

(** The statement has no ON CONFLICT clause: a trade_id that is already
    in the table is a constraint violation, and nothing is inserted. *)
Definition insert_trades (raw : list RawRow) (db : DB) : error + DB :=
  let rows := trade_rows raw db in
  if existsb (fun c => existsb (fun x => trd_id c =? trd_id x) (trades db)) rows
  then inl ConstraintError
  else inr (mkDB (exchanges db) (instruments db) (expiries db)
                 (trades db ++ rows) (indexes db)).

(* ------------------------------------------------------------------ *)
(** *** CREATE INDEX and the whole load *)

Definition create_index (name : string) (db : DB) : error + DB :=
  if existsb (String.eqb name) (indexes db)
  then inl CatalogError
  else inr (mkDB (exchanges db) (instruments db) (expiries db) (trades db)
                 (indexes db ++ [name])).

Open Scope exec_scope.

(** The statements of [load_data_duckdb] after [raw_data] exists.  The
    closing COUNT queries only feed the log. *)
Definition load_raw_data (raw : list RawRow) : Exec unit :=
  execute (insert_instruments raw) ;;
  execute (insert_expiries raw) ;;
  execute_or_raise (insert_trades raw) ;;
  execute_or_raise (create_index "idx_trades_instrument") ;;
  execute_or_raise (create_index "idx_trades_date") ;;
  execute_or_raise (create_index "idx_trades_symbol_date").

Section Csv.

Context `{TryCast}.

(** TRY_CAST(cell AS ...): NULL stays NULL, a failed conversion is NULL. *)
Definition try_cast (conv : string -> option Z) (cell : option string)
  : option Z :=
  match cell with
  | Some s => conv s
  | None => None
  end.

(** strptime(cell, '%d-%b-%Y'): NULL stays NULL; text that does not
    parse raises.  The TRY_CAST around it only guards the conversion of
    the timestamp it returns. *)
Definition strptime (cell : option string) : error + option Timestamp :=
  match cell with
  | None => inr None
  | Some s =>
      match Strptime.parse s with
      | Some t => inr (Some t)
      | None => inl InvalidInputError
      end
  end.

(** The SELECT list of CREATE TEMP TABLE raw_data, for one line. *)
Definition raw_of (c : CsvRow) : error + RawRow :=
  match strptime (EXPIRY_DT c), strptime (TIMESTAMP c) with
  | inr e, inr t =>
      inr (mkRawRow (INSTRUMENT c) (SYMBOL c)
             (option_map date_of_timestamp e)
             (try_cast to_decimal_12_2 (STRIKE_PR c))
             (OPTION_TYP c)
             (try_cast to_decimal_12_2 (OPEN c))
             (try_cast to_decimal_12_2 (HIGH c))
             (try_cast to_decimal_12_2 (LOW c))
             (try_cast to_decimal_12_2 (CLOSE c))
             (try_cast to_decimal_12_2 (SETTLE_PR c))
             (try_cast to_bigint (CONTRACTS c))
             (try_cast to_decimal_15_2 (VAL_INLAKH c))
             (try_cast to_bigint (OPEN_INT c))
             (try_cast to_bigint (CHG_IN_OI c))
             t)
  | inl e, _ => inl e
  | _, inl e => inl e
  end.

(** CREATE TEMP TABLE raw_data AS SELECT ...: every line is converted;
    the first exception aborts the statement. *)
Fixpoint create_raw_data (csv : list CsvRow) : error + list RawRow :=
  match csv with
  | [] => inr []
  | c :: cs =>
      match raw_of c with
      | inl e => inl e
      | inr r =>
          match create_raw_data cs with
          | inl e => inl e
          | inr rs => inr (r :: rs)
          end
      end
  end.

Definition load_data_duckdb (csv : list CsvRow) : Exec unit :=
  match create_raw_data csv with
  | inl e => raise e
  | inr raw => load_raw_data raw
  end.

(** [main]: a new connection to the store, the schema, the load. *)
Definition main (csv : list CsvRow) : Exec unit :=
  create_duckdb_schema ;; load_data_duckdb csv.

End Csv.

(** The store a first run starts from. *)
Definition fresh_db : DB := fst (create_duckdb_schema empty_db).

(* ================================================================== *)
(** ** The load under any row order *)

(** The order the engine picks: at every place where the order of rows
    is its choice, [scan] stands for the rearrangement it applies.  The
    place decides the type of the rows, so one [Order] gives every place
    of a statement its own rearrangement; two runs take two [Order]s. *)
Record Order := mkOrder {
  scan : forall A : Type, list A -> list A;
  scan_perm : forall (A : Type) (l : list A), Permutation (scan A l) l
}.

Arguments scan o {A} l.

(** The order of the file, and its reverse. *)
Definition file_order : Order :=
  mkOrder (fun _ l => l) (fun _ l => Permutation_refl l).

Definition reverse_order : Order :=
  mkOrder (fun _ l => rev l) (fun _ l => Permutation_sym (Permutation_rev l)).

(** INSERT INTO instruments: the distinct pairs come in the order [o]
    picks and are numbered in it; the numbered rows are inserted in the
    order [o] picks for them. *)
Definition instrument_rows_by (o : Order) (raw : list RawRow)
  : list Instrument :=
  scan o (map instrument_of (Sql.row_number (scan o (distinct_symbols raw)))).

Definition insert_instruments_by (o : Order) (raw : list RawRow) (db : DB)
  : DB :=
  mkDB (exchanges db)
       (Sql.insert_do_nothing instrument_conflict (instruments db)
                              (instrument_rows_by o raw))
       (expiries db) (trades db) (indexes db).

(** INSERT INTO expiries, likewise: the joined rows are numbered in one
    order and inserted in another. *)
Definition expiry_rows_by (o : Order) (raw : list RawRow) (db : DB)
  : list Expiry :=
  scan o
    (map expiry_of
       (Sql.row_number
          (scan o
             (Sql.join
                (fun r i => on_instrument (con_instrument r) (con_symbol r) i)
                (distinct_contracts raw) (instruments db))))).

Definition insert_expiries_by (o : Order) (raw : list RawRow) (db : DB)
  : DB :=
  mkDB (exchanges db) (instruments db)
       (Sql.insert_do_nothing expiry_conflict (expiries db)
                              (expiry_rows_by o raw db))
       (trades db) (indexes db).

(** INSERT INTO trades, likewise. *)
Definition trade_rows_by (o : Order) (raw : list RawRow) (db : DB)
  : list Trade :=
  scan o (map trade_of (Sql.row_number (scan o (trade_source raw db)))).

Definition insert_trades_by (o : Order) (raw : list RawRow) (db : DB)
  : error + DB :=
  let rows := trade_rows_by o raw db in
  if existsb (fun c => existsb (fun x => trd_id c =? trd_id x) (trades db)) rows
  then inl ConstraintError
  else inr (mkDB (exchanges db) (instruments db) (expiries db)
                 (trades db ++ rows) (indexes db)).

Definition load_raw_data_by (o : Order) (raw : list RawRow) : Exec unit :=
  execute (insert_instruments_by o raw) ;;
  execute (insert_expiries_by o raw) ;;
  execute_or_raise (insert_trades_by o raw) ;;
  execute_or_raise (create_index "idx_trades_instrument") ;;
  execute_or_raise (create_index "idx_trades_date") ;;
  execute_or_raise (create_index "idx_trades_symbol_date").

Definition main_by `{TryCast} (o : Order) (csv : list CsvRow) : Exec unit :=
  create_duckdb_schema ;;
  match create_raw_data csv with
  | inl e => raise e
  | inr raw => load_raw_data_by o raw
  end.

(* ================================================================== *)
(** ** Predicates used in the statements *)

(** The columns a record needs to reach the fact table: both identity
    columns, the expiry date and the timestamp. *)
Definition loadable (r : RawRow) : bool :=
  Sql.is_not_null (raw_instrument r) && Sql.is_not_null (raw_symbol r)
  && Sql.is_not_null (raw_expiry_dt r) && Sql.is_not_null (raw_timestamp r).

Definition has_identity (r : RawRow) : bool :=
  Sql.is_not_null (raw_instrument r) && Sql.is_not_null (raw_symbol r).

(** The natural key of an instruments row and of an expiries row. *)
Definition ins_key (i : Instrument) : symbol_key := (ins_type i, ins_symbol i).

Definition exp_key (e : Expiry)
  : option Z * option Date * option Z * option string :=
  (exp_instrument_id e, exp_date e, exp_strike_price e, exp_option_type e).

(** Row [e] of the expiries table is the contract of record [r], whose
    instrument is row [i]. *)
Definition contract_row (r : RawRow) (i : Instrument) (e : Expiry) : Prop :=
  ins_type i = raw_instrument r /\ ins_symbol i = raw_symbol r
  /\ exp_instrument_id e = Some (ins_id i)
  /\ exp_date e = raw_expiry_dt r
  /\ exp_strike_price e = Sql.coalesce (raw_strike_pr r) 0
  /\ exp_option_type e = Sql.coalesce (raw_option_typ r) "XX"%string.

(** Row [t] of the trades table is the fact row of record [r] in store
    [db]. *)
Definition fact_row (db : DB) (t : Trade) (r : RawRow) : Prop :=
  exists i e,
    In i (instruments db) /\ In e (expiries db) /\ contract_row r i e
    /\ t = trade_of (trd_id t, (r, i, e)).

(** The value a measure contributes to a sum. *)
Definition or_zero (a : option Z) : Z :=
  match a with
  | Some v => v
  | None => 0
  end.

Definition total (l : list Z) : Z := fold_right Z.add 0 l.

(** Every measure of trades row [t] is the value record [r] has for it,
    or 0 where the record has NULL. *)
Definition measures_defaulted (t : Trade) (r : RawRow) : Prop :=
  trd_open t = Some (or_zero (raw_open r))
  /\ trd_high t = Some (or_zero (raw_high r))
  /\ trd_low t = Some (or_zero (raw_low r))
  /\ trd_close t = Some (or_zero (raw_close r))
  /\ trd_settle_price t = Some (or_zero (raw_settle_pr r))
  /\ trd_contracts t = Some (or_zero (raw_contracts r))
  /\ trd_value_in_lakh t = Some (or_zero (raw_val_inlakh r))
  /\ trd_open_interest t = Some (or_zero (raw_open_int r))
  /\ trd_change_in_oi t = Some (or_zero (raw_chg_in_oi r)).

Definition measures_not_null (t : Trade) : Prop :=
  trd_open t <> None /\ trd_high t <> None /\ trd_low t <> None
  /\ trd_close t <> None /\ trd_settle_price t <> None
  /\ trd_contracts t <> None /\ trd_value_in_lakh t <> None
  /\ trd_open_interest t <> None /\ trd_change_in_oi t <> None.

(** The store after a first load of [raw]. *)
Definition loaded (raw : list RawRow) : DB := fst (load_raw_data raw fresh_db).

(** The store after a first load of [raw] in which the engine picked the
    order [o]. *)
Definition loaded_by (o : Order) (raw : list RawRow) : DB :=
  fst (load_raw_data_by o raw fresh_db).

(** A fact row without its trade_id. *)
Definition without_id (t : Trade) : Trade :=
  mkTrade 0 (trd_expiry_id t) (trd_instrument_id t) (trd_date t)
          (trd_open t) (trd_high t) (trd_low t) (trd_close t)
          (trd_settle_price t) (trd_contracts t) (trd_value_in_lakh t)
          (trd_open_interest t) (trd_change_in_oi t) (trd_timestamp t).

(** The store after the three INSERT statements of a first load, before
    any index is created. *)
Definition loaded_tables (raw : list RawRow) : DB :=
  mkDB (exchanges (loaded raw)) (instruments (loaded raw))
       (expiries (loaded raw)) (trades (loaded raw)) [].

(** The rows referenced by a foreign key. *)
Definition instruments_with_id (db : DB) (k : option Z) : list Instrument :=
  filter (fun i => Sql.is_true (Sql.eq Z.eqb (Some (ins_id i)) k)) (instruments db).

Definition expiries_with_id (db : DB) (k : option Z) : list Expiry :=
  filter (fun e => Sql.is_true (Sql.eq Z.eqb (Some (exp_id e)) k)) (expiries db).

Definition exchanges_with_id (db : DB) (k : option Z) : list Exchange :=
  filter (fun x => Sql.is_true (Sql.eq Z.eqb (Some (exc_id x)) k)) (exchanges db).

(** [pat] occurs in [s]. *)
Definition substring_of (pat s : string) : Prop :=
  exists a b, s = (a ++ pat ++ b)%string.

(* ================================================================== *)
(** ** Sample data *)

Module Sample.

Open Scope string_scope.

Definition expiry : Date := mkDate 2019 8 29.

Definition stamp : Timestamp := mkTimestamp (mkDate 2019 8 1) 0.

(** A futures record: no strike, no option type. *)
Definition future : RawRow :=
  mkRawRow (Some "FUTIDX") (Some "NIFTY") (Some expiry) None None
           (Some 1100000) (Some 1105050) (Some 1095000) (Some 1101000)
           (Some 1101000) (Some 5) (Some 4125) None (Some 12)
           (Some stamp).

(** An option record, complete but for its timestamp. *)
Definition no_timestamp : RawRow :=
  mkRawRow (Some "OPTIDX") (Some "NIFTY") (Some expiry) (Some 1100000)
           (Some "CE") (Some 12000) (Some 12500) (Some 11000) (Some 12100)
           (Some 12100) (Some 7) (Some 900) (Some 40) (Some 3)
           None.

(** An option record, complete but for its symbol. *)
Definition no_symbol : RawRow :=
  mkRawRow (Some "OPTIDX") None (Some expiry) (Some 1100000)
           (Some "CE") (Some 12000) (Some 12500) (Some 11000) (Some 12100)
           (Some 12100) (Some 7) (Some 900) (Some 40) (Some 3)
           (Some stamp).

(** The same contract with the sentinels written out: strike 0, option
    type "XX". *)
Definition future_explicit : RawRow :=
  mkRawRow (Some "FUTIDX") (Some "NIFTY") (Some expiry) (Some 0) (Some "XX")
           (Some 1101000) (Some 1106000) (Some 1099000) (Some 1102000)
           (Some 1102000) (Some 9) (Some 7400) (Some 30) (Some 2)
           (Some (mkTimestamp (mkDate 2019 8 2) 0)).

Definition future_explicit_trade : Trade :=
  mkTrade 2 (Some 1) (Some 1) (Some (mkDate 2019 8 2))
          (Some 1101000) (Some 1106000) (Some 1099000) (Some 1102000)
          (Some 1102000) (Some 9) (Some 7400) (Some 30) (Some 2)
          (Some (mkTimestamp (mkDate 2019 8 2) 0)).

(** The futures contract of the next month. *)
Definition later_future : RawRow :=
  mkRawRow (Some "FUTIDX") (Some "NIFTY") (Some (mkDate 2019 9 26)) None None
           (Some 1104000) (Some 1109000) (Some 1100000) (Some 1105000)
           (Some 1105000) (Some 3) (Some 2480) (Some 10) (Some 1)
           (Some stamp).

Definition future_expiry : Expiry :=
  mkExpiry 1 (Some 1) (Some expiry) (Some 0) (Some "XX").

(** The instruments row and the fact row of [future] when it is loaded
    alone. *)
Definition future_instrument : Instrument :=
  mkInstrument 1 (Some 1) (Some "FUTIDX") (Some "NIFTY") (Some "FUT").


Definition future_trade : Trade :=
  mkTrade 1 (Some 1) (Some 1) (Some (mkDate 2019 8 1))
          (Some 1100000) (Some 1105050) (Some 1095000) (Some 1101000)
          (Some 1101000) (Some 5) (Some 4125) (Some 0) (Some 12)
          (Some stamp).

(** Stand-ins for the engine's conversions, used where a statement has
    to be run on concrete cells.  They convert plain decimal text: an
    optional sign, digits and, for the decimals, at most two digits after
    the point, within the range of the type.  Text outside this shape,
    some of which the engine converts as well (it rounds further digits),
    counts as a failure here; the sample lines stay inside the shape. *)
Definition signed (f : string -> option Z) (s : string) : option Z :=
  match s with
  | String "-"%char s' => option_map Z.opp (f s')
  | _ => f s
  end.

Fixpoint before_point (s : string) : string :=
  match s with
  | EmptyString => EmptyString
  | String c s' =>
      if Ascii.eqb c "."%char then EmptyString else String c (before_point s')
  end.

Fixpoint after_point (s : string) : string :=
  match s with
  | EmptyString => EmptyString
  | String c s' => if Ascii.eqb c "."%char then s' else after_point s'
  end.

Definition hundredths (s : string) : option Z :=
  match Strptime.number (before_point s), after_point s with
  | Some n, EmptyString => Some (100 * n)
  | Some n, String a EmptyString =>
      option_map (fun x => 100 * n + 10 * x) (Strptime.digit_of a)
  | Some n, String a (String b EmptyString) =>
      match Strptime.digit_of a, Strptime.digit_of b with
      | Some x, Some y => Some (100 * n + 10 * x + y)
      | _, _ => None
      end
  | _, _ => None
  end.

Definition within (bound : Z) (v : option Z) : option Z :=
  match v with
  | Some x => if ((- bound <? x) && (x <? bound))%Z then Some x else None
  | None => None
  end.

Definition plain_text : TryCast := {|
  to_bigint s := within (2 ^ 63) (signed Strptime.number s);
  to_decimal_12_2 s := within (10 ^ 12) (signed hundredths s);
  to_decimal_15_2 s := within (10 ^ 15) (signed hundredths s)
|}.

(** Scenario A of the specification, and the same line with an expiry
    date that does not parse. *)
Definition line_A : CsvRow :=
  mkCsvRow (Some "FUTIDX") (Some "NIFTY") (Some "29-Aug-2019") None None
           (Some "11000") (Some "11050.5") (Some "10950") (Some "11010")
           (Some "11010") (Some "5") (Some "41.25") None (Some "12")
           (Some "01-Aug-2019").

Definition line_B : CsvRow :=
  mkCsvRow (Some "FUTIDX") (Some "NIFTY") (Some "32-Foo-2019") None None
           (Some "11000") (Some "11050.5") (Some "10950") (Some "11010")
           (Some "11010") (Some "5") (Some "41.25") None (Some "12")
           (Some "01-Aug-2019").

End Sample.

(* ================================================================== *)
(** ** Running the load again *)

(** The exception a second load of [raw] ends with: the trades
    statement's when a fact row is there to collide with, else the first
    CREATE INDEX's. *)
Definition rerun_error (raw : list RawRow) : error :=
  if existsb loadable raw then ConstraintError else CatalogError.

(* ================================================================== *)
(** ** A reader of the fact table (scripts/visualize_results.py) *)

(** [x > y] *)
Definition sql_gt (a b : option Z) : Sql.bool3 :=
  match a, b with
  | Some x, Some y => Some (y <? x)
  | _, _ => None
  end.

(** The query of [plot_volume_distribution]:
    SELECT contracts as volume FROM trades WHERE contracts > 0 LIMIT 100000.
    There is no ORDER BY: LIMIT keeps the first rows of the order [o] the
    engine picks. *)
Definition volume_distribution_by (o : Order) (db : DB) : list (option Z) :=
  firstn (Z.to_nat 100000)
    (scan o
       (map trd_contracts
            (filter (fun t => Sql.is_true (sql_gt (trd_contracts t) (Some 0)))
                    (trades db)))).

(* ================================================================== *)
(** ** Facts about the SQL primitives *)

Section ListFacts.

Context {A B : Type}.

Lemma flat_map_flat_map {C : Type} (f : A -> list B) (g : B -> list C) l :
  flat_map g (flat_map f l) = flat_map (fun x => flat_map g (f x)) l.
Proof.
  induction l as [|x l IH]; simpl; [reflexivity|].
  now rewrite flat_map_app, IH.
Qed.

Lemma filter_flat_map (f : A -> list B) (p : B -> bool) l :
  filter p (flat_map f l) = flat_map (fun x => filter p (f x)) l.
Proof.
  induction l as [|x l IH]; simpl; [reflexivity|].
  now rewrite filter_app, IH.
Qed.

(** A flat_map whose pieces are empty or singletons follows a filter. *)
Lemma flat_map_Forall2_filter (R : B -> A -> Prop) (g : A -> list B)
      (p : A -> bool) l :
  (forall x, In x l -> p x = true -> exists y, g x = [y] /\ R y x) ->
  (forall x, In x l -> p x = false -> g x = []) ->
  Forall2 R (flat_map g l) (filter p l).
Proof.
  induction l as [|x l IH]; intros Ht Hf; simpl; [constructor|].
  assert (IH' : Forall2 R (flat_map g l) (filter p l)).
  { apply IH; intros; [apply Ht | apply Hf]; simpl; auto. }
  destruct (p x) eqn:E.
  - destruct (Ht x (or_introl Logic.eq_refl) E) as [y [-> Hy]].
    simpl. now constructor.
  - rewrite (Hf x (or_introl Logic.eq_refl) E). exact IH'.
Qed.

Lemma Forall2_In_l (R : A -> B -> Prop) l1 l2 x :
  Forall2 R l1 l2 -> In x l1 -> exists y, In y l2 /\ R x y.
Proof.
  induction 1 as [|a b l1 l2 Hab _ IH]; simpl; [tauto|].
  intros [<-|Hin].
  - exists b; auto.
  - destruct (IH Hin) as [y [Hy HR]]. exists y; auto.
Qed.

Lemma Forall2_In_r (R : A -> B -> Prop) l1 l2 y :
  Forall2 R l1 l2 -> In y l2 -> exists x, In x l1 /\ R x y.
Proof.
  induction 1 as [|a b l1 l2 Hab _ IH]; simpl; [tauto|].
  intros [<-|Hin].
  - exists a; auto.
  - destruct (IH Hin) as [x [Hx HR]]. exists x; auto.
Qed.

Lemma NoDup_map_inj (f : A -> B) l x y :
  NoDup (map f l) -> In x l -> In y l -> f x = f y -> x = y.
Proof.
  induction l as [|a l IH]; simpl; [tauto|].
  intros Hnd Hx Hy Hf. inversion Hnd as [|? ? Hnotin Hnd']; subst.
  destruct Hx as [<-|Hx], Hy as [<-|Hy]; auto.
  - exfalso. apply Hnotin. rewrite Hf. now apply in_map.
  - exfalso. apply Hnotin. rewrite <- Hf. now apply in_map.
Qed.

Lemma filter_none (p : A -> bool) l :
  (forall b, In b l -> p b = false) -> filter p l = [].
Proof.
  induction l as [|x l IH]; simpl; intros Hp; [reflexivity|].
  rewrite (Hp x) by auto. apply IH. auto.
Qed.

(** In a list without repeated keys, a predicate that recognises the
    key of [a] selects [a] alone. *)
Lemma filter_singleton (key : A -> B) (p : A -> bool) l a :
  NoDup (map key l) -> In a l ->
  (forall b, In b l -> p b = true <-> key b = key a) ->
  filter p l = [a].
Proof.
  induction l as [|x l IH]; simpl; [tauto|].
  intros Hnd Hin Hp. inversion Hnd as [|? ? Hnotin Hnd']; subst.
  assert (Hrest : forall b, In b l -> key b = key x -> False).
  { intros b Hb Hk. apply Hnotin. rewrite <- Hk. now apply in_map. }
  destruct Hin as [->|Hin].
  - assert (Hpa : p a = true) by (apply Hp; auto).
    rewrite Hpa. f_equal. apply filter_none.
    intros b Hb. destruct (p b) eqn:E; [|reflexivity].
    exfalso. apply (Hrest b Hb). apply Hp; auto.
  - assert (Hpx : p x = false).
    { destruct (p x) eqn:E; [|reflexivity].
      exfalso. apply (Hrest a Hin). symmetry. apply Hp; auto. }
    rewrite Hpx. apply IH; auto.
Qed.

End ListFacts.

Section LogicFacts.

Lemma is_true_and3 a b :
  Sql.is_true (Sql.and3 a b) = true
  <-> Sql.is_true a = true /\ Sql.is_true b = true.
Proof.
  destruct a as [[|]|], b as [[|]|]; simpl; split; intros; try tauto;
    try discriminate; destruct H; discriminate.
Qed.

Lemma is_true_eq {A : Type} (eqb : A -> A -> bool) a b :
  (forall x y, eqb x y = true <-> x = y) ->
  Sql.is_true (Sql.eq eqb a b) = true <-> a = b /\ a <> None.
Proof.
  intros Heqb. destruct a as [x|], b as [y|]; simpl;
    try (split; [discriminate | intros [H1 H2]; congruence]).
  destruct (eqb x y) eqn:E.
  - apply Heqb in E. subst. split; auto. split; [auto|discriminate].
  - split; [discriminate|]. intros [H _]. inversion H as [H'].
    apply Heqb in H'. congruence.
Qed.

Lemma Date_eqb_eq x y : Date_eqb x y = true <-> x = y.
Proof.
  unfold Date_eqb. destruct (Date_eq_dec x y); split; auto; discriminate.
Qed.

Lemma is_true_eq_Z a b :
  Sql.is_true (Sql.eq Z.eqb a b) = true <-> a = b /\ a <> None.
Proof. apply is_true_eq, Z.eqb_eq. Qed.

Lemma is_true_eq_string a b :
  Sql.is_true (Sql.eq String.eqb a b) = true <-> a = b /\ a <> None.
Proof. apply is_true_eq, String.eqb_eq. Qed.

Lemma is_true_eq_Date a b :
  Sql.is_true (Sql.eq Date_eqb a b) = true <-> a = b /\ a <> None.
Proof. apply is_true_eq, Date_eqb_eq. Qed.

Lemma is_not_null_true {A : Type} (a : option A) :
  Sql.is_not_null a = true <-> a <> None.
Proof. destruct a; simpl; split; congruence. Qed.

Lemma coalesce_not_null {A : Type} (a : option A) d : Sql.coalesce a d <> None.
Proof. destruct a; discriminate. Qed.

End LogicFacts.

Section DistinctFacts.

Context {A : Type} (eq_dec : forall x y : A, {x = y} + {x <> y}).

Lemma distinct_In l x : In x (Sql.distinct eq_dec l) <-> In x l.
Proof.
  induction l as [|a l IH]; simpl; [tauto|].
  rewrite filter_In, IH.
  destruct (eq_dec a x) as [->|Hne]; split; intros H; auto.
  - destruct H as [H|[H _]]; auto.
  - destruct H as [H|H]; [contradiction|]. right. split; auto.
Qed.

Lemma distinct_NoDup l : NoDup (Sql.distinct eq_dec l).
Proof.
  induction l as [|a l IH]; simpl; constructor.
  - rewrite filter_In. intros [_ H].
    destruct (eq_dec a a); [discriminate|contradiction].
  - now apply NoDup_filter.
Qed.

End DistinctFacts.

Section NumberFacts.

Context {A : Type}.

Lemma number_from_snd (l : list A) n : map snd (Sql.number_from n l) = l.
Proof.
  revert n; induction l as [|x l IH]; intros n; simpl; [reflexivity|].
  now rewrite IH.
Qed.

Lemma number_from_ge (l : list A) n p :
  In p (Sql.number_from n l) -> n <= fst p.
Proof.
  revert n; induction l as [|x l IH]; intros n; simpl; [tauto|].
  intros [<-|H]; simpl; [lia|]. apply IH in H. lia.
Qed.

Lemma number_from_fst_NoDup (l : list A) n :
  NoDup (map fst (Sql.number_from n l)).
Proof.
  revert n; induction l as [|x l IH]; intros n; simpl; constructor; auto.
  rewrite in_map_iff. intros [p [Hp Hin]].
  apply number_from_ge in Hin. lia.
Qed.

Lemma number_from_In_snd (l : list A) n x :
  In x l -> exists k, In (k, x) (Sql.number_from n l).
Proof.
  intros Hin. rewrite <- (number_from_snd l n) in Hin.
  apply in_map_iff in Hin. destruct Hin as [[k y] [Hy Hin]].
  simpl in Hy; subst. now exists k.
Qed.

Lemma number_from_In_inv (l : list A) n p :
  In p (Sql.number_from n l) -> In (snd p) l.
Proof.
  intros Hin. rewrite <- (number_from_snd l n). now apply in_map.
Qed.

(** The numbers depend on the length of the input only. *)
Lemma number_from_fst_length {B : Type} (l : list A) (l' : list B) n :
  List.length l = List.length l' ->
  map fst (Sql.number_from n l) = map fst (Sql.number_from n l').
Proof.
  revert l' n; induction l as [|x l IH]; intros [|y l'] n; simpl;
    try discriminate; auto.
  intros Hlen. f_equal. apply IH. lia.
Qed.

End NumberFacts.

Section InsertFacts.

Context {A : Type} (conflict : A -> A -> bool).

Local Abbreviation insert := (Sql.insert_do_nothing conflict).

(** Rows already stored stay, in place. *)
Lemma insert_keeps tbl cands x : In x tbl -> In x (insert tbl cands).
Proof.
  revert tbl; induction cands as [|c cs IH]; intros tbl Hin; simpl; auto.
  destruct (existsb (conflict c) tbl); apply IH; auto.
  apply in_or_app; auto.
Qed.

(** Nothing is stored but old rows and candidates. *)
Lemma insert_In_inv tbl cands x :
  In x (insert tbl cands) -> In x tbl \/ In x cands.
Proof.
  revert tbl; induction cands as [|c cs IH]; intros tbl; simpl; auto.
  destruct (existsb (conflict c) tbl); intros Hin; apply IH in Hin.
  - tauto.
  - destruct Hin as [Hin|Hin]; auto.
    apply in_app_or in Hin. simpl in Hin. tauto.
Qed.

Lemma existsb_insert tbl cands c :
  existsb (conflict c) tbl = true ->
  existsb (conflict c) (insert tbl cands) = true.
Proof.
  rewrite !existsb_exists. intros [x [Hx Hc]].
  exists x. split; auto. now apply insert_keeps.
Qed.

(** After the statement every candidate collides with a stored row:
    itself, or the row that kept it out. *)
Lemma insert_covers tbl cands :
  (forall c, In c cands -> conflict c c = true) ->
  forall c, In c cands -> existsb (conflict c) (insert tbl cands) = true.
Proof.
  revert tbl; induction cands as [|a cs IH]; intros tbl Hrefl c; simpl;
    [tauto|].
  intros [->|Hin].
  - destruct (existsb (conflict c) tbl) eqn:E.
    + now apply existsb_insert.
    + apply existsb_insert. rewrite existsb_app. simpl.
      rewrite (Hrefl c) by (simpl; auto). now rewrite orb_true_r.
  - destruct (existsb (conflict a) tbl); apply IH; auto;
      intros; apply Hrefl; simpl; auto.
Qed.

Lemma insert_all_conflict tbl cands :
  (forall c, In c cands -> existsb (conflict c) tbl = true) ->
  insert tbl cands = tbl.
Proof.
  induction cands as [|c cs IH]; intros H; simpl; [reflexivity|].
  rewrite (H c) by (simpl; auto). apply IH. intros; apply H; simpl; auto.
Qed.

(** Running the same INSERT ... ON CONFLICT DO NOTHING again changes
    nothing. *)
Lemma insert_idempotent tbl cands :
  (forall c, In c cands -> conflict c c = true) ->
  insert (insert tbl cands) cands = insert tbl cands.
Proof.
  intros Hrefl. apply insert_all_conflict.
  intros c Hc. now apply insert_covers.
Qed.

(** A key whose equality is a conflict stays free of repetitions. *)
Lemma insert_NoDup_key {K : Type} (key : A -> K) tbl cands :
  (forall c x, In c cands -> key c = key x -> conflict c x = true) ->
  NoDup (map key tbl) -> NoDup (map key (insert tbl cands)).
Proof.
  revert tbl; induction cands as [|c cs IH]; intros tbl Hk Hnd; simpl; auto.
  destruct (existsb (conflict c) tbl) eqn:E.
  - apply IH; auto. intros; apply Hk; simpl; auto.
  - apply IH; [intros; apply Hk; simpl; auto|].
    rewrite map_app. simpl.
    apply NoDup_app; auto; [repeat constructor; simpl; tauto|].
    intros k Hin [<-|[]]. apply in_map_iff in Hin. destruct Hin as [x [Hx Hin]].
    assert (existsb (conflict c) tbl = true); [|congruence].
    apply existsb_exists. exists x. split; auto.
    apply Hk; simpl; auto.
Qed.

End InsertFacts.

(* ================================================================== *)
(** ** The statements of the load, one by one *)

Lemma fresh_db_eq : fresh_db = mkDB seed_exchanges [] [] [] [].
Proof. reflexivity. Qed.

(** Whatever happens to the later statements, the two dimension
    statements have run and are committed. *)
Lemma load_raw_data_dimensions raw db :
  instruments (fst (load_raw_data raw db))
  = instruments (insert_instruments raw db)
  /\ expiries (fst (load_raw_data raw db))
     = expiries (insert_expiries raw (insert_instruments raw db)).
Proof.
  unfold load_raw_data, bind, execute, execute_or_raise.
  set (db2 := insert_expiries raw (insert_instruments raw db)).
  unfold insert_trades.
  destruct (existsb _ (trade_rows raw db2)); simpl; [auto|].
  unfold create_index; simpl.
  repeat match goal with
         | |- context [existsb ?f ?l] => destruct (existsb f l); simpl; auto
         end.
Qed.

Lemma instrument_conflict_inv c x :
  instrument_conflict c x = true ->
  ins_id c = ins_id x
  \/ (ins_key c = ins_key x /\ ins_type c <> None /\ ins_symbol c <> None).
Proof.
  unfold instrument_conflict, ins_key. rewrite orb_true_iff.
  intros [H|H]; [left; now apply Z.eqb_eq|right].
  rewrite !is_true_and3, is_true_eq_Z, !is_true_eq_string in H.
  destruct H as [[_ [H1 H2]] [H3 H4]]. repeat split; congruence.
Qed.

(** On a table whose ids are below the first number and whose keys do
    not occur among the candidates, every candidate is inserted. *)
Lemma insert_numbered_instruments ps : forall n tbl,
  NoDup ps ->
  (forall x, In x tbl -> ins_id x < n) ->
  (forall x, In x tbl -> ~ In (ins_key x) ps) ->
  Sql.insert_do_nothing instrument_conflict tbl
    (map instrument_of (Sql.number_from n ps))
  = tbl ++ map instrument_of (Sql.number_from n ps).
Proof.
  induction ps as [|p ps IH]; intros n tbl Hnd Hid Hkey; simpl.
  - now rewrite app_nil_r.
  - inversion Hnd as [|? ? Hnotin Hnd']; subst.
    assert (E : existsb (instrument_conflict (instrument_of (n, p))) tbl = false).
    { apply not_true_is_false. rewrite existsb_exists. intros [x [Hx Hc]].
      apply instrument_conflict_inv in Hc. destruct Hc as [Hc|[Hc _]].
      - apply Hid in Hx. simpl in Hc. lia.
      - apply (Hkey x Hx). rewrite <- Hc. unfold ins_key; simpl.
        destruct p; simpl; auto. }
    rewrite E, IH; auto.
    + now rewrite <- app_assoc.
    + intros x Hx. apply in_app_or in Hx. destruct Hx as [Hx|[<-|[]]].
      * apply Hid in Hx. lia.
      * simpl. lia.
    + intros x Hx Hin. apply in_app_or in Hx. destruct Hx as [Hx|[<-|[]]].
      * apply (Hkey x Hx). simpl. auto.
      * apply Hnotin. unfold ins_key in Hin; simpl in Hin.
        destruct p; simpl in *; auto.
Qed.

Lemma existsb_in_empty {X Y : Type} (f : X -> Y -> bool) l :
  existsb (fun c => existsb (f c) []) l = false.
Proof. induction l; simpl; auto. Qed.

Lemma insert_instrument_rows_empty raw :
  Sql.insert_do_nothing instrument_conflict [] (instrument_rows raw)
  = instrument_rows raw.
Proof.
  unfold instrument_rows, Sql.row_number.
  now rewrite (insert_numbered_instruments (distinct_symbols raw) 1 []);
    [ | apply distinct_NoDup | simpl; tauto | simpl; tauto].
Qed.

(** A first load raises nothing and leaves exactly the rows the three
    SELECTs produce. *)
Lemma load_raw_data_fresh raw :
  load_raw_data raw fresh_db
  = (mkDB seed_exchanges
          (instrument_rows raw)
          (Sql.insert_do_nothing expiry_conflict []
             (expiry_rows raw (insert_instruments raw fresh_db)))
          (trade_rows raw (insert_expiries raw (insert_instruments raw fresh_db)))
          ["idx_trades_instrument"; "idx_trades_date"; "idx_trades_symbol_date"]%string,
     inr tt).
Proof.
  rewrite fresh_db_eq.
  unfold load_raw_data, bind, execute, execute_or_raise, insert_trades.
  simpl trades. rewrite existsb_in_empty. simpl.
  now rewrite insert_instrument_rows_empty.
Qed.

Lemma loaded_ok raw : snd (load_raw_data raw fresh_db) = inr tt.
Proof. now rewrite load_raw_data_fresh. Qed.

Lemma loaded_exchanges raw : exchanges (loaded raw) = seed_exchanges.
Proof. unfold loaded. now rewrite load_raw_data_fresh. Qed.

Lemma loaded_instruments raw : instruments (loaded raw) = instrument_rows raw.
Proof. unfold loaded. now rewrite load_raw_data_fresh. Qed.

Lemma insert_instruments_fresh raw :
  instruments (insert_instruments raw fresh_db) = instrument_rows raw.
Proof.
  rewrite fresh_db_eq. unfold insert_instruments. simpl.
  apply insert_instrument_rows_empty.
Qed.

Lemma loaded_expiries raw :
  expiries (loaded raw)
  = Sql.insert_do_nothing expiry_conflict [] (expiry_rows raw (loaded raw)).
Proof.
  unfold loaded at 1. rewrite load_raw_data_fresh. simpl.
  unfold expiry_rows.
  now rewrite loaded_instruments, insert_instruments_fresh.
Qed.

Lemma loaded_trades raw : trades (loaded raw) = trade_rows raw (loaded raw).
Proof.
  unfold loaded at 1. rewrite load_raw_data_fresh. simpl.
  unfold trade_rows, trade_source.
  rewrite loaded_expiries, loaded_instruments.
  unfold insert_expiries, expiry_rows. simpl.
  now rewrite loaded_instruments, !insert_instrument_rows_empty.
Qed.

(* ------------------------------------------------------------------ *)
(** *** The instruments dimension after a first load *)

Lemma ins_key_instrument_of p : ins_key (instrument_of p) = snd p.
Proof. destruct p as [n [a b]]. reflexivity. Qed.

Lemma instrument_rows_keys raw :
  map ins_key (instrument_rows raw) = distinct_symbols raw.
Proof.
  unfold instrument_rows, Sql.row_number. rewrite map_map.
  rewrite (map_ext _ snd) by apply ins_key_instrument_of.
  apply number_from_snd.
Qed.

Lemma instrument_rows_keys_NoDup raw : NoDup (map ins_key (instrument_rows raw)).
Proof. rewrite instrument_rows_keys. apply distinct_NoDup. Qed.

Lemma instrument_rows_ids_NoDup raw : NoDup (map ins_id (instrument_rows raw)).
Proof.
  unfold instrument_rows, Sql.row_number. rewrite map_map.
  rewrite (map_ext _ fst) by reflexivity.
  apply number_from_fst_NoDup.
Qed.

Lemma instrument_rows_complete raw a b :
  In (a, b) (distinct_symbols raw) ->
  exists i, In i (instrument_rows raw) /\ ins_key i = (a, b).
Proof.
  rewrite <- instrument_rows_keys, in_map_iff.
  intros [i [Hk Hi]]. now exists i.
Qed.

Lemma distinct_symbols_In raw a b :
  In (a, b) (distinct_symbols raw)
  <-> exists r, In r raw /\ raw_instrument r = a /\ raw_symbol r = b.
Proof.
  unfold distinct_symbols. rewrite distinct_In, in_map_iff.
  split; intros [r H]; exists r.
  - destruct H as [H Hin]. inversion H. auto.
  - destruct H as [Hin [<- <-]]. auto.
Qed.

Lemma instrument_rows_shape raw i :
  In i (instrument_rows raw) ->
  ins_exchange_id i = Some 1
  /\ ins_series i = Some (series_of (ins_type i))
  /\ exists r, In r raw /\ raw_instrument r = ins_type i /\ raw_symbol r = ins_symbol i.
Proof.
  intros Hin. assert (Hk : In (ins_key i) (distinct_symbols raw)).
  { rewrite <- instrument_rows_keys. now apply in_map. }
  apply distinct_symbols_In in Hk.
  unfold instrument_rows in Hin. apply in_map_iff in Hin.
  destruct Hin as [[n [a b]] [<- _]]. simpl in *. auto.
Qed.

Lemma on_instrument_true a b i :
  Sql.is_true (on_instrument a b i) = true
  <-> ins_key i = (a, b) /\ a <> None /\ b <> None.
Proof.
  unfold on_instrument, ins_key.
  rewrite is_true_and3, !is_true_eq_string.
  split.
  - intros [[-> Ha] [-> Hb]]. auto.
  - intros [H [Ha Hb]]. inversion H; subst. auto.
Qed.

(** A record with both identity columns joins exactly one instruments
    row. *)
Lemma instrument_match raw a b :
  In (a, b) (distinct_symbols raw) -> a <> None -> b <> None ->
  exists i,
    In i (instrument_rows raw) /\ ins_key i = (a, b)
    /\ filter (fun i => Sql.is_true (on_instrument a b i)) (instrument_rows raw)
       = [i].
Proof.
  intros Hin Ha Hb.
  destruct (instrument_rows_complete raw a b Hin) as [i [Hi Hk]].
  exists i. repeat split; auto.
  apply (filter_singleton ins_key); auto using instrument_rows_keys_NoDup.
  intros x Hx. rewrite on_instrument_true, Hk. tauto.
Qed.

(** A record with a NULL identity column joins none, in any table. *)
Lemma instrument_no_match tbl a b :
  a = None \/ b = None ->
  filter (fun i => Sql.is_true (on_instrument a b i)) tbl = [].
Proof.
  intros H. apply filter_none. intros i _.
  apply not_true_is_false. rewrite on_instrument_true. tauto.
Qed.

(* ------------------------------------------------------------------ *)
(** *** The expiries dimension after a first load *)

Lemma coalesce_idem {A : Type} (a : option A) d :
  Sql.coalesce (Sql.coalesce a d) d = Sql.coalesce a d.
Proof. now destruct a. Qed.

Lemma expiry_conflict_inv c x :
  expiry_conflict c x = true -> exp_id c = exp_id x \/ exp_key c = exp_key x.
Proof.
  unfold expiry_conflict, exp_key. rewrite orb_true_iff.
  intros [H|H]; [left; now apply Z.eqb_eq|right].
  rewrite !is_true_and3, !is_true_eq_Z, is_true_eq_Date, is_true_eq_string in H.
  destruct H as [[[[-> _] [-> _]] [-> _]] [-> _]]. reflexivity.
Qed.

Lemma expiry_conflict_id c x : exp_id c = exp_id x -> expiry_conflict c x = true.
Proof.
  intros H. unfold expiry_conflict. rewrite H, Z.eqb_refl. reflexivity.
Qed.

Lemma expiry_conflict_key c x :
  exp_key c = exp_key x ->
  exp_instrument_id c <> None -> exp_date c <> None ->
  exp_strike_price c <> None -> exp_option_type c <> None ->
  expiry_conflict c x = true.
Proof.
  unfold exp_key, expiry_conflict. intros H H1 H2 H3 H4. inversion H.
  apply orb_true_iff. right.
  rewrite !is_true_and3, !is_true_eq_Z, is_true_eq_Date, is_true_eq_string.
  repeat split; auto.
Qed.

Lemma expiry_rows_ids_NoDup raw db : NoDup (map exp_id (expiry_rows raw db)).
Proof.
  unfold expiry_rows, Sql.row_number. rewrite map_map.
  rewrite (map_ext _ fst) by reflexivity.
  apply number_from_fst_NoDup.
Qed.

Lemma distinct_contracts_In raw c :
  In c (distinct_contracts raw)
  <-> exists r, In r raw /\ raw_expiry_dt r <> None /\ contract_of r = c.
Proof.
  unfold distinct_contracts.
  rewrite distinct_In, in_map_iff.
  split; intros [r H]; exists r.
  - destruct H as [H Hin]. apply filter_In in Hin.
    rewrite is_not_null_true in Hin. tauto.
  - rewrite filter_In, is_not_null_true. tauto.
Qed.

(** Every candidate row of the expiries SELECT is the contract of a
    record with all three of instrument, symbol and expiry date. *)
Lemma expiry_rows_inv raw c :
  In c (expiry_rows raw (loaded raw)) ->
  exists r i,
    In r raw /\ In i (instrument_rows raw)
    /\ raw_instrument r <> None /\ raw_symbol r <> None
    /\ raw_expiry_dt r <> None /\ contract_row r i c.
Proof.
  unfold expiry_rows. rewrite loaded_instruments, in_map_iff.
  intros [[n [con i]] [<- Hin]].
  apply number_from_In_inv in Hin. simpl in Hin.
  unfold Sql.join in Hin. apply in_flat_map in Hin.
  destruct Hin as [con' [Hcon Hin]]. apply in_map_iff in Hin.
  destruct Hin as [i' [Heq Hi]]. inversion Heq; subst con' i'; clear Heq.
  apply filter_In in Hi. destruct Hi as [Hi Hon].
  apply on_instrument_true in Hon. destruct Hon as [Hk [Ha Hb]].
  apply distinct_contracts_In in Hcon. destruct Hcon as [r [Hr [Hd <-]]].
  unfold ins_key in Hk. inversion Hk as [[Ht Hs]]. simpl in *.
  exists r, i. unfold contract_row. simpl. rewrite Ht, Hs. repeat split; auto.
Qed.

Lemma expiry_rows_complete raw r i :
  In r raw -> In i (instrument_rows raw) ->
  ins_key i = (raw_instrument r, raw_symbol r) ->
  raw_instrument r <> None -> raw_symbol r <> None ->
  raw_expiry_dt r <> None ->
  exists c, In c (expiry_rows raw (loaded raw)) /\ contract_row r i c.
Proof.
  intros Hr Hi Hk Ha Hb Hd.
  assert (Hj : In (contract_of r, i)
                  (Sql.join (fun r i => on_instrument (con_instrument r) (con_symbol r) i)
                            (distinct_contracts raw) (instrument_rows raw))).
  { unfold Sql.join. apply in_flat_map. exists (contract_of r). split.
    - apply distinct_contracts_In. exists r. auto.
    - apply in_map. apply filter_In. split; auto.
      apply on_instrument_true. simpl. auto. }
  destruct (number_from_In_snd _ 1 _ Hj) as [k Hk'].
  exists (expiry_of (k, (contract_of r, i))). split.
  - unfold expiry_rows. rewrite loaded_instruments. now apply in_map.
  - unfold ins_key in Hk. inversion Hk. unfold contract_row. simpl.
    repeat split; auto.
Qed.

Lemma loaded_expiries_inv raw e :
  In e (expiries (loaded raw)) -> In e (expiry_rows raw (loaded raw)).
Proof.
  rewrite loaded_expiries. intros H. apply insert_In_inv in H.
  destruct H as [[]|H]. exact H.
Qed.

Lemma loaded_expiries_ids_NoDup raw : NoDup (map exp_id (expiries (loaded raw))).
Proof.
  rewrite loaded_expiries. apply insert_NoDup_key; [|constructor].
  intros c x _. apply expiry_conflict_id.
Qed.

Lemma loaded_expiries_keys_NoDup raw :
  NoDup (map exp_key (expiries (loaded raw))).
Proof.
  rewrite loaded_expiries. apply insert_NoDup_key; [|constructor].
  intros c x Hc Hk. apply expiry_rows_inv in Hc.
  destruct Hc as [r [i [_ [_ [_ [_ [Hd [_ [_ [Hi [He [Hs Ho]]]]]]]]]]]].
  apply expiry_conflict_key; auto; try congruence.
  - rewrite Hs. apply coalesce_not_null.
  - rewrite Ho. apply coalesce_not_null.
Qed.

(** Every candidate is stored, or a stored row has its natural key. *)
Lemma loaded_expiries_complete raw c :
  In c (expiry_rows raw (loaded raw)) ->
  exists e, In e (expiries (loaded raw)) /\ exp_key e = exp_key c.
Proof.
  intros Hc.
  assert (H : existsb (expiry_conflict c) (expiries (loaded raw)) = true).
  { rewrite loaded_expiries. apply insert_covers; auto.
    intros x _. now apply expiry_conflict_id. }
  apply existsb_exists in H. destruct H as [e [He Hce]].
  exists e. split; auto.
  apply expiry_conflict_inv in Hce. destruct Hce as [Hid|Hk]; auto.
  f_equal. symmetry.
  apply (NoDup_map_inj exp_id (expiry_rows raw (loaded raw)));
    auto using expiry_rows_ids_NoDup, loaded_expiries_inv.
Qed.

Lemma on_expiry_true r i ex :
  Sql.is_true (on_expiry (r, i) ex) = true
  <-> exp_instrument_id ex = Some (ins_id i)
      /\ exp_date ex = raw_expiry_dt r /\ raw_expiry_dt r <> None
      /\ Sql.coalesce (exp_strike_price ex) 0 = Sql.coalesce (raw_strike_pr r) 0
      /\ Sql.coalesce (exp_option_type ex) "XX"%string
         = Sql.coalesce (raw_option_typ r) "XX"%string.
Proof.
  unfold on_expiry. simpl.
  rewrite !is_true_and3, !is_true_eq_Z, is_true_eq_Date, is_true_eq_string.
  split.
  - intros [[[[H1 _] [H2 H2']] [H3 _]] [H4 _]]. rewrite <- H2. auto.
  - intros [H1 [H2 [H2' [H3 H4]]]]. rewrite H1, H2.
    repeat split; auto using coalesce_not_null; discriminate.
Qed.

(** A record with instrument, symbol and expiry date joins exactly one
    expiries row: its contract. *)
Lemma expiry_match raw r i :
  In r raw -> In i (instrument_rows raw) ->
  ins_key i = (raw_instrument r, raw_symbol r) ->
  raw_instrument r <> None -> raw_symbol r <> None ->
  raw_expiry_dt r <> None ->
  exists e,
    In e (expiries (loaded raw)) /\ contract_row r i e
    /\ filter (fun ex => Sql.is_true (on_expiry (r, i) ex)) (expiries (loaded raw))
       = [e].
Proof.
  intros Hr Hi Hk Ha Hb Hd.
  destruct (expiry_rows_complete raw r i Hr Hi Hk Ha Hb Hd) as [c [Hc Hrow]].
  destruct (loaded_expiries_complete raw c Hc) as [e [He Hke]].
  assert (Hrow' : contract_row r i e).
  { unfold exp_key in Hke. inversion Hke as [[K1 K2 K3 K4]].
    unfold contract_row in *. rewrite K1, K2, K3, K4. exact Hrow. }
  exists e. repeat split; auto; try apply Hrow'.
  apply (filter_singleton exp_key); auto using loaded_expiries_keys_NoDup.
  intros x Hx. rewrite on_expiry_true.
  destruct Hrow' as [_ [_ [E1 [E2 [E3 E4]]]]].
  unfold exp_key. rewrite E1, E2, E3, E4.
  apply loaded_expiries_inv, expiry_rows_inv in Hx.
  destruct Hx as [r' [i' [_ [_ [_ [_ [_ [_ [_ [_ [_ [X3 X4]]]]]]]]]]]].
  split.
  - intros [H1 [H2 [_ [H3 H4]]]]. rewrite H1, H2, <- H3, <- H4, X3, X4.
    now rewrite !coalesce_idem.
  - intros H. inversion H as [[K1 K2 K3 K4]].
    repeat split; auto; [congruence | rewrite X3 | rewrite X4];
      apply coalesce_idem.
Qed.

(** A record without an expiry date joins none, in any table. *)
Lemma expiry_no_match tbl r i :
  raw_expiry_dt r = None ->
  filter (fun ex => Sql.is_true (on_expiry (r, i) ex)) tbl = [].
Proof.
  intros H. apply filter_none. intros ex _.
  apply not_true_is_false. rewrite on_expiry_true. tauto.
Qed.

(* ------------------------------------------------------------------ *)
(** *** The fact table after a first load *)

Lemma loadable_true r :
  loadable r = true
  <-> raw_instrument r <> None /\ raw_symbol r <> None
      /\ raw_expiry_dt r <> None /\ raw_timestamp r <> None.
Proof.
  unfold loadable. rewrite !andb_true_iff, !is_not_null_true. tauto.
Qed.

Lemma loadable_false r :
  loadable r = false
  <-> raw_instrument r = None \/ raw_symbol r = None
      \/ raw_expiry_dt r = None \/ raw_timestamp r = None.
Proof.
  unfold loadable.
  destruct (raw_instrument r), (raw_symbol r), (raw_expiry_dt r),
    (raw_timestamp r); simpl; split; intros H; auto; try discriminate;
    repeat (destruct H as [H|H]; try discriminate).
Qed.

(** The FROM ... JOIN ... WHERE of the trades statement yields one row
    per loadable record, in the order of [raw_data], and nothing else. *)
Lemma loaded_trade_source raw :
  Forall2 (fun y r =>
             fst (fst y) = r
             /\ In (snd (fst y)) (instruments (loaded raw))
             /\ In (snd y) (expiries (loaded raw))
             /\ contract_row r (snd (fst y)) (snd y))
          (trade_source raw (loaded raw)) (filter loadable raw).
Proof.
  unfold trade_source, Sql.join.
  rewrite filter_flat_map, flat_map_flat_map.
  rewrite loaded_instruments.
  apply flat_map_Forall2_filter.
  - intros r Hr Hl. apply loadable_true in Hl. destruct Hl as [Ha [Hb [Hd Ht]]].
    assert (Hs : In (raw_instrument r, raw_symbol r) (distinct_symbols raw)).
    { apply distinct_symbols_In. exists r. auto. }
    destruct (instrument_match raw _ _ Hs Ha Hb) as [i [Hi [Hk Hf]]].
    destruct (expiry_match raw r i Hr Hi Hk Ha Hb Hd) as [e [He [Hrow Hfe]]].
    exists (r, i, e). rewrite Hf. simpl. rewrite Hfe. simpl.
    apply is_not_null_true in Ht. rewrite Ht. simpl. auto.
  - intros r Hr Hl.
    destruct (raw_instrument r) as [a|] eqn:Ea;
      [|rewrite instrument_no_match by auto; reflexivity].
    destruct (raw_symbol r) as [b|] eqn:Eb;
      [|rewrite instrument_no_match by auto; reflexivity].
    assert (Hs : In (Some a, Some b) (distinct_symbols raw)).
    { apply distinct_symbols_In. exists r. auto. }
    destruct (instrument_match raw _ _ Hs) as [i [Hi [Hk Hf]]];
      try discriminate.
    rewrite Hf. simpl. rewrite app_nil_r.
    destruct (raw_expiry_dt r) as [d|] eqn:Ed;
      [|rewrite expiry_no_match by auto; reflexivity].
    destruct (expiry_match raw r i Hr Hi) as [e [He [Hrow Hfe]]];
      try congruence.
    rewrite Hfe. simpl.
    apply loadable_false in Hl.
    destruct Hl as [Hl|[Hl|[Hl|Hl]]]; try congruence.
    now rewrite Hl.
Qed.

Lemma numbered_facts db : forall S L n,
  Forall2 (fun y r =>
             fst (fst y) = r /\ In (snd (fst y)) (instruments db)
             /\ In (snd y) (expiries db)
             /\ contract_row r (snd (fst y)) (snd y)) S L ->
  Forall2 (fact_row db) (map trade_of (Sql.number_from n S)) L.
Proof.
  induction S as [|y S IH]; intros L n H; inversion H; subst; simpl;
    constructor; auto.
  destruct y as [[r i] e]. simpl in *.
  match goal with Hy : _ /\ _ |- _ => destruct Hy as [-> [Hi [He Hrow]]] end.
  exists i, e. auto.
Qed.

(** The fact table after a first load: the fact rows of the loadable
    records, in order, numbered from 1. *)
Lemma loaded_trades_spec raw :
  Forall2 (fact_row (loaded raw)) (trades (loaded raw)) (filter loadable raw)
  /\ map trd_id (trades (loaded raw))
     = map fst (Sql.row_number (filter loadable raw)).
Proof.
  pose proof (loaded_trade_source raw) as H.
  rewrite loaded_trades. unfold trade_rows, Sql.row_number. split.
  - now apply numbered_facts.
  - rewrite map_map. rewrite (map_ext _ fst) by reflexivity.
    apply number_from_fst_length. now apply Forall2_length in H.
Qed.

Lemma loaded_trades_count raw :
  List.length (trades (loaded raw)) = List.length (filter loadable raw).
Proof.
  destruct (loaded_trades_spec raw) as [H _]. now apply Forall2_length in H.
Qed.

(* ================================================================== *)
(** ** Which records reach the fact table *)

Lemma flat_map_skip {A B : Type} (g : A -> list B) (q : A -> bool) l :
  (forall x, q x = false -> g x = []) ->
  flat_map g l = flat_map g (filter q l).
Proof.
  intros Hg. induction l as [|x l IH]; simpl; [reflexivity|].
  destruct (q x) eqn:E; simpl; rewrite IH; [reflexivity|].
  now rewrite (Hg x E).
Qed.

Lemma filter_comm {A : Type} (p q : A -> bool) l :
  filter p (filter q l) = filter q (filter p l).
Proof.
  induction l as [|x l IH]; simpl; [reflexivity|].
  destruct (p x) eqn:Ep, (q x) eqn:Eq; simpl;
    rewrite ?Ep, ?Eq, IH; reflexivity.
Qed.

Lemma filter_map_comm {A B : Type} (f : A -> B) (q : B -> bool) l :
  filter q (map f l) = map f (filter (fun x => q (f x)) l).
Proof.
  induction l as [|x l IH]; simpl; [reflexivity|].
  destruct (q (f x)); simpl; now rewrite IH.
Qed.

Lemma filter_all {A : Type} (p : A -> bool) l :
  (forall x, In x l -> p x = true) -> filter p l = l.
Proof.
  induction l as [|x l IH]; simpl; intros Hp; [reflexivity|].
  rewrite (Hp x) by auto. f_equal. apply IH. auto.
Qed.

(** DISTINCT commutes with a WHERE on the same columns. *)
Lemma distinct_filter {A : Type} (eq_dec : forall x y : A, {x = y} + {x <> y})
      (q : A -> bool) l :
  filter q (Sql.distinct eq_dec l) = Sql.distinct eq_dec (filter q l).
Proof.
  induction l as [|x l IH]; simpl; [reflexivity|].
  destruct (q x) eqn:E; simpl.
  - now rewrite filter_comm, IH.
  - rewrite <- IH, filter_comm. apply filter_all.
    intros y Hy. apply filter_In in Hy. destruct Hy as [_ Hq].
    destruct (eq_dec x y); [congruence|reflexivity].
Qed.

(** The expiries SELECT reads the instruments table only. *)
Lemma expiry_rows_ext raw db db' :
  instruments db = instruments db' -> expiry_rows raw db = expiry_rows raw db'.
Proof. unfold expiry_rows. now intros ->. Qed.

Lemma expiry_rows_identity raw db :
  expiry_rows raw db = expiry_rows (filter has_identity raw) db.
Proof.
  unfold expiry_rows, Sql.join. do 2 f_equal.
  set (q := fun c : Contract =>
              Sql.is_not_null (con_instrument c) && Sql.is_not_null (con_symbol c)).
  rewrite (flat_map_skip _ q).
  - f_equal. unfold distinct_contracts.
    rewrite distinct_filter, filter_map_comm. do 2 f_equal.
    apply filter_comm.
  - intros c Hq. rewrite instrument_no_match; [reflexivity|].
    unfold q in Hq. destruct (con_instrument c), (con_symbol c); auto;
      discriminate.
Qed.

Lemma trade_rows_identity raw db :
  trade_rows raw db = trade_rows (filter has_identity raw) db.
Proof.
  unfold trade_rows, trade_source, Sql.join. do 4 f_equal.
  apply flat_map_skip. intros r Hq.
  rewrite instrument_no_match; [reflexivity|].
  unfold has_identity in Hq.
  destruct (raw_instrument r), (raw_symbol r); auto; discriminate.
Qed.

(* ================================================================== *)
(** ** The claims *)

(** C1, as stated, fails: a record with instrument, symbol, expiry date,
    strike and option type, whose timestamp alone is NULL, is kept out of
    the fact table by WHERE r.timestamp IS NOT NULL. *)
Lemma C1_null_timestamp_is_dropped :
  raw_instrument Sample.no_timestamp <> None
  /\ raw_symbol Sample.no_timestamp <> None
  /\ raw_expiry_dt Sample.no_timestamp <> None
  /\ raw_strike_pr Sample.no_timestamp <> None
  /\ raw_option_typ Sample.no_timestamp <> None
  /\ raw_timestamp Sample.no_timestamp = None
  /\ trades (loaded [Sample.no_timestamp]) = [].
Proof. repeat split; try discriminate; reflexivity. Qed.

(** C1, amended: after a first load the fact table holds exactly one
    fact row for each record of raw_data whose instrument, symbol, expiry
    date and timestamp are all non-NULL, in order, and no other row; a
    record is left out if and only if one of these four columns is NULL.
    NULL measures, a NULL strike or a NULL option type never exclude a
    record. *)
Theorem C1_excluded_iff_null_key_column raw :
  Forall2 (fact_row (loaded raw)) (trades (loaded raw)) (filter loadable raw)
  /\ (forall r,
        loadable r = false
        <-> raw_instrument r = None \/ raw_symbol r = None
            \/ raw_expiry_dt r = None \/ raw_timestamp r = None)
  /\ (forall r,
        loadable r = true
        <-> raw_instrument r <> None /\ raw_symbol r <> None
            /\ raw_expiry_dt r <> None /\ raw_timestamp r <> None).
Proof.
  split; [apply loaded_trades_spec|].
  split; intros r; [apply loadable_false | apply loadable_true].
Qed.

(** C2, as stated, fails: a record whose symbol is NULL still yields a
    row of the instruments dimension. *)
Lemma C2_null_symbol_yields_instrument :
  raw_symbol Sample.no_symbol = None
  /\ instruments (loaded [Sample.no_symbol])
     = [mkInstrument 1 (Some 1) (Some "OPTIDX"%string) None (Some "OPT"%string)].
Proof. split; reflexivity. Qed.

(** C2, amended: records with a NULL instrument or symbol contribute
    nothing to the expiries and trades statements (on any store, both
    statements do the same with and without them), but every record,
    these included, has its (instrument, symbol) pair in the instruments
    dimension after a first load. *)
Theorem C2_null_identity_reaches_instruments_only raw :
  (forall db,
      insert_expiries raw db = insert_expiries (filter has_identity raw) db
      /\ insert_trades raw db = insert_trades (filter has_identity raw) db)
  /\ (forall r, In r raw ->
        exists i, In i (instruments (loaded raw))
                  /\ ins_type i = raw_instrument r
                  /\ ins_symbol i = raw_symbol r).
Proof.
  split; [intros db; split|].
  - unfold insert_expiries. now rewrite <- expiry_rows_identity.
  - unfold insert_trades. now rewrite <- trade_rows_identity.
  - intros r Hr. rewrite loaded_instruments.
    destruct (instrument_rows_complete raw (raw_instrument r) (raw_symbol r))
      as [i [Hi Hk]].
    + apply distinct_symbols_In. exists r. auto.
    + exists i. unfold ins_key in Hk. inversion Hk. auto.
Qed.

Lemma instrument_conflict_refl c : instrument_conflict c c = true.
Proof. unfold instrument_conflict. now rewrite Z.eqb_refl. Qed.

Lemma fact_row_keys db t r :
  fact_row db t r ->
  exists i e,
    In i (instruments db) /\ In e (expiries db) /\ contract_row r i e
    /\ trd_instrument_id t = Some (ins_id i)
    /\ trd_expiry_id t = Some (exp_id e).
Proof.
  intros [i [e [Hi [He [Hrow Ht]]]]]. exists i, e.
  rewrite Ht. simpl. auto.
Qed.

Lemma instruments_with_id_unique raw i :
  In i (instruments (loaded raw)) ->
  instruments_with_id (loaded raw) (Some (ins_id i)) = [i].
Proof.
  intros Hi. unfold instruments_with_id.
  apply (filter_singleton ins_id); auto.
  - rewrite loaded_instruments. apply instrument_rows_ids_NoDup.
  - intros x _. rewrite is_true_eq_Z. split.
    + intros [Hx _]. congruence.
    + intros ->. split; [reflexivity|discriminate].
Qed.

Lemma expiries_with_id_unique raw e :
  In e (expiries (loaded raw)) ->
  expiries_with_id (loaded raw) (Some (exp_id e)) = [e].
Proof.
  intros He. unfold expiries_with_id.
  apply (filter_singleton exp_id); auto using loaded_expiries_ids_NoDup.
  intros x _. rewrite is_true_eq_Z. split.
  - intros [Hx _]. congruence.
  - intros ->. split; [reflexivity|discriminate].
Qed.

(** C4: after a first load, the instrument_id of every trades row is the
    key of exactly one instruments row and its expiry_id the key of
    exactly one expiries row. *)
Theorem C4_join_completeness raw t :
  In t (trades (loaded raw)) ->
  (exists i, instruments_with_id (loaded raw) (trd_instrument_id t) = [i])
  /\ (exists e, expiries_with_id (loaded raw) (trd_expiry_id t) = [e]).
Proof.
  intros Ht.
  destruct (loaded_trades_spec raw) as [H _].
  destruct (Forall2_In_l _ _ _ _ H Ht) as [r [_ Hrow]].
  destruct (fact_row_keys _ _ _ Hrow) as [i [e [Hi [He [_ [-> ->]]]]]].
  split; [exists i | exists e];
    auto using instruments_with_id_unique, expiries_with_id_unique.
Qed.

Lemma C4_join_completeness_witness :
  In Sample.future_trade (trades (loaded [Sample.future]))
  /\ (exists i, instruments_with_id (loaded [Sample.future])
                  (trd_instrument_id Sample.future_trade) = [i])
  /\ (exists e, expiries_with_id (loaded [Sample.future])
                  (trd_expiry_id Sample.future_trade) = [e]).
Proof.
  assert (Hin : In Sample.future_trade (trades (loaded [Sample.future]))).
  { vm_compute. left. reflexivity. }
  split; [exact Hin|].
  exact (C4_join_completeness [Sample.future] Sample.future_trade Hin).
Defined.

(* ------------------------------------------------------------------ *)
(** *** Measures *)

Lemma coalesce_or_zero a : Sql.coalesce a 0 = Some (or_zero a).
Proof. now destruct a. Qed.

Lemma fact_row_measures db t r : fact_row db t r -> measures_defaulted t r.
Proof.
  intros [i [e [_ [_ [_ Ht]]]]]. rewrite Ht. unfold measures_defaulted. simpl.
  now rewrite !coalesce_or_zero.
Qed.

Lemma measures_defaulted_not_null t r :
  measures_defaulted t r -> measures_not_null t.
Proof.
  unfold measures_defaulted, measures_not_null.
  intros [-> [-> [-> [-> [-> [-> [-> [-> ->]]]]]]]].
  repeat split; discriminate.
Qed.

Lemma Forall2_map_eq {A B C : Type} (f : A -> C) (g : B -> C) l1 l2 :
  Forall2 (fun x y => f x = g y) l1 l2 -> map f l1 = map g l2.
Proof. induction 1; simpl; congruence. Qed.

Lemma sum_from acc l :
  fold_left (fun acc x =>
               match x with
               | None => acc
               | Some v => Some (match acc with Some a => a + v | None => v end)
               end) (map Some l) (Some acc)
  = Some (acc + total l).
Proof.
  revert acc; induction l as [|x l IH]; intros acc; simpl.
  - f_equal. lia.
  - rewrite IH. f_equal. lia.
Qed.

(** SUM over a column without NULLs. *)
Lemma sum_not_null l :
  Sql.sum (map Some l) = match l with [] => None | _ => Some (total l) end.
Proof.
  destruct l as [|x l]; [reflexivity|].
  unfold Sql.sum. simpl. now rewrite sum_from.
Qed.

(** The measures of a parsed line are the TRY_CASTs of its cells. *)
Lemma raw_of_measures `{TryCast} c r :
  raw_of c = inr r ->
  raw_open r = try_cast to_decimal_12_2 (OPEN c)
  /\ raw_high r = try_cast to_decimal_12_2 (HIGH c)
  /\ raw_low r = try_cast to_decimal_12_2 (LOW c)
  /\ raw_close r = try_cast to_decimal_12_2 (CLOSE c)
  /\ raw_settle_pr r = try_cast to_decimal_12_2 (SETTLE_PR c)
  /\ raw_contracts r = try_cast to_bigint (CONTRACTS c)
  /\ raw_val_inlakh r = try_cast to_decimal_15_2 (VAL_INLAKH c)
  /\ raw_open_int r = try_cast to_bigint (OPEN_INT c)
  /\ raw_chg_in_oi r = try_cast to_bigint (CHG_IN_OI c).
Proof.
  unfold raw_of.
  destruct (strptime (EXPIRY_DT c)), (strptime (TIMESTAMP c));
    try discriminate.
  intros E. inversion E. simpl. repeat split.
Qed.

(** C5: after a first load every measure of every trades row is
    non-NULL: it is the value of the record the row was built from, or 0
    where the record has NULL; the record has the TRY_CAST of the cell,
    NULL where the conversion fails.  A blank OPEN_INT cell is NULL, so
    the row has open_interest 0, and SUM(open_interest) adds the stored
    values, zeros included. *)
Theorem C5_measures_default_to_zero `{TryCast} raw :
  Forall2 measures_defaulted (trades (loaded raw)) (filter loadable raw)
  /\ Forall measures_not_null (trades (loaded raw))
  /\ (forall c r,
        raw_of c = inr r ->
        raw_open r = try_cast to_decimal_12_2 (OPEN c)
        /\ raw_high r = try_cast to_decimal_12_2 (HIGH c)
        /\ raw_low r = try_cast to_decimal_12_2 (LOW c)
        /\ raw_close r = try_cast to_decimal_12_2 (CLOSE c)
        /\ raw_settle_pr r = try_cast to_decimal_12_2 (SETTLE_PR c)
        /\ raw_contracts r = try_cast to_bigint (CONTRACTS c)
        /\ raw_val_inlakh r = try_cast to_decimal_15_2 (VAL_INLAKH c)
        /\ raw_open_int r = try_cast to_bigint (OPEN_INT c)
        /\ raw_chg_in_oi r = try_cast to_bigint (CHG_IN_OI c))
  /\ (forall c r db t,
        raw_of c = inr r -> OPEN_INT c = None -> fact_row db t r ->
        trd_open_interest t = Some 0)
  /\ Sql.sum (map trd_open_interest (trades (loaded raw)))
     = match filter loadable raw with
       | [] => None
       | rs => Some (total (map (fun r => or_zero (raw_open_int r)) rs))
       end.
Proof.
  assert (Hm : Forall2 measures_defaulted (trades (loaded raw))
                       (filter loadable raw)).
  { destruct (loaded_trades_spec raw) as [Hrows _].
    eapply Forall2_impl; [|exact Hrows].
    intros t r. apply fact_row_measures. }
  split; [exact Hm|]. split; [|split; [|split]].
  2: { intros c r. apply raw_of_measures. }
  - apply Forall_forall. intros t Ht.
    destruct (Forall2_In_l _ _ _ _ Hm Ht) as [r [_ Hr]].
    now apply measures_defaulted_not_null with r.
  - intros c r db t Hc Hblank Hrow.
    apply fact_row_measures in Hrow.
    destruct Hrow as [_ [_ [_ [_ [_ [_ [_ [-> _]]]]]]]].
    destruct (raw_of_measures c r Hc) as [_ [_ [_ [_ [_ [_ [_ [-> _]]]]]]]].
    now rewrite Hblank.
  - assert (E : map trd_open_interest (trades (loaded raw))
                = map Some (map (fun r => or_zero (raw_open_int r))
                                (filter loadable raw))).
    { rewrite map_map. apply Forall2_map_eq.
      eapply Forall2_impl; [|exact Hm].
      intros t r Htr. apply Htr. }
    rewrite E, sum_not_null.
    now destruct (filter loadable raw).
Qed.

(* ------------------------------------------------------------------ *)
(** *** Contracts and series *)

(** C6: after a first load, a record with instrument, symbol and expiry
    date joins exactly one instruments row and, with it, exactly one
    expiries row; that row carries the record's expiry date, strike 0
    where the record has no strike and option type "XX" where it has no
    option type (its own strike or option type otherwise).  A futures
    record, which has neither, thus resolves to the one row
    (instrument, date, 0, "XX"). *)
Theorem C6_futures_sentinel raw r :
  In r raw ->
  raw_instrument r <> None -> raw_symbol r <> None ->
  raw_expiry_dt r <> None ->
  exists i e,
    filter (fun i => Sql.is_true
                       (on_instrument (raw_instrument r) (raw_symbol r) i))
           (instruments (loaded raw)) = [i]
    /\ filter (fun ex => Sql.is_true (on_expiry (r, i) ex))
              (expiries (loaded raw)) = [e]
    /\ exp_instrument_id e = Some (ins_id i)
    /\ exp_date e = raw_expiry_dt r
    /\ (raw_strike_pr r = None -> exp_strike_price e = Some 0)
    /\ (raw_option_typ r = None -> exp_option_type e = Some "XX"%string)
    /\ (forall v, raw_strike_pr r = Some v -> exp_strike_price e = Some v)
    /\ (forall o, raw_option_typ r = Some o -> exp_option_type e = Some o).
Proof.
  intros Hr Ha Hb Hd.
  assert (Hs : In (raw_instrument r, raw_symbol r) (distinct_symbols raw)).
  { apply distinct_symbols_In. exists r. auto. }
  destruct (instrument_match raw _ _ Hs Ha Hb) as [i [Hi [Hk Hf]]].
  destruct (expiry_match raw r i Hr Hi Hk Ha Hb Hd) as [e [He [Hrow Hfe]]].
  destruct Hrow as [_ [_ [E1 [E2 [E3 E4]]]]].
  exists i, e. rewrite loaded_instruments.
  repeat split; auto.
  - intros Hn. now rewrite E3, Hn.
  - intros Hn. now rewrite E4, Hn.
  - intros v Hv. now rewrite E3, Hv.
  - intros o Ho. now rewrite E4, Ho.
Qed.

Lemma C6_futures_sentinel_witness :
  raw_strike_pr Sample.future = None
  /\ raw_option_typ Sample.future = None
  /\ exists i e,
       filter (fun i => Sql.is_true
                          (on_instrument (raw_instrument Sample.future)
                                         (raw_symbol Sample.future) i))
              (instruments (loaded [Sample.future])) = [i]
       /\ filter (fun ex => Sql.is_true (on_expiry (Sample.future, i) ex))
                 (expiries (loaded [Sample.future])) = [e]
       /\ exp_instrument_id e = Some (ins_id i)
       /\ exp_date e = raw_expiry_dt Sample.future
       /\ (raw_strike_pr Sample.future = None -> exp_strike_price e = Some 0)
       /\ (raw_option_typ Sample.future = None
           -> exp_option_type e = Some "XX"%string)
       /\ (forall v, raw_strike_pr Sample.future = Some v
                     -> exp_strike_price e = Some v)
       /\ (forall o, raw_option_typ Sample.future = Some o
                     -> exp_option_type e = Some o).
Proof.
  split; [reflexivity|]. split; [reflexivity|].
  apply (C6_futures_sentinel [Sample.future] Sample.future).
  - simpl. left. reflexivity.
  - simpl. discriminate.
  - simpl. discriminate.
  - simpl. discriminate.
Defined.

Lemma prefix_spec pat : forall s,
  String.prefix pat s = true <-> exists b, s = (pat ++ b)%string.
Proof.
  induction pat as [|a pat IH]; intros s.
  - destruct s; simpl; split; intros _; eauto.
  - destruct s as [|c s]; simpl.
    + split; [discriminate|]. intros [b Hb]. discriminate.
    + destruct (ascii_dec a c) as [<-|Hne].
      * rewrite IH. split; intros [b Hb]; exists b; congruence.
      * split; [discriminate|]. intros [b Hb]. congruence.
Qed.

Lemma contains_eq pat s :
  Sql.contains pat s
  = String.prefix pat s
    || match s with
       | EmptyString => false
       | String _ s' => Sql.contains pat s'
       end.
Proof. destruct s; reflexivity. Qed.

(** [Sql.contains] decides occurrence as a substring. *)
Lemma contains_spec pat : forall s,
  Sql.contains pat s = true <-> substring_of pat s.
Proof.
  unfold substring_of.
  induction s as [|c s IH]; rewrite contains_eq, orb_true_iff, prefix_spec.
  - split.
    + intros [[b Hb]|H]; [|discriminate]. exists EmptyString, b. exact Hb.
    + intros [a [b H]]. left. exists b.
      destruct a; [exact H|discriminate].
  - rewrite IH. split.
    + intros [[b Hb]|[a [b H]]].
      * exists EmptyString, b. exact Hb.
      * exists (String c a), b. simpl. now rewrite H.
    + intros [a [b H]]. destruct a as [|c' a]; simpl in H.
      * left. now exists b.
      * right. exists a, b. congruence.
Qed.

(** C7: after a first load, the series of an instruments row is "OPT"
    when its instrument_type contains "OPT" and "FUT" otherwise (a NULL
    instrument_type contains nothing); the row of INSTRUMENT = "FUTIDX"
    has series "FUT". *)
Theorem C7_series_from_instrument_type raw i :
  In i (instruments (loaded raw)) ->
  ((exists s, ins_type i = Some s /\ substring_of "OPT" s)
   -> ins_series i = Some "OPT"%string)
  /\ (~ (exists s, ins_type i = Some s /\ substring_of "OPT" s)
      -> ins_series i = Some "FUT"%string)
  /\ (ins_type i = Some "FUTIDX"%string -> ins_series i = Some "FUT"%string).
Proof.
  rewrite loaded_instruments. intros Hi.
  destruct (instrument_rows_shape raw i Hi) as [_ [-> _]].
  unfold series_of, Sql.like_contains.
  destruct (ins_type i) as [s|]; simpl.
  - destruct (Sql.contains "OPT" s) eqn:E; simpl.
    + repeat split; auto.
      * intros Hn. exfalso. apply Hn. exists s. split; auto.
        now apply contains_spec.
      * intros Hs. inversion Hs; subst. discriminate.
    + repeat split; auto.
      intros [s' [Hs Hsub]]. inversion Hs; subst.
      apply contains_spec in Hsub. congruence.
  - repeat split; auto; try discriminate.
    intros [s [Hs _]]. discriminate.
Qed.

Lemma C7_series_from_instrument_type_witness :
  In Sample.future_instrument (instruments (loaded [Sample.future]))
  /\ ((exists s, ins_type Sample.future_instrument = Some s
                 /\ substring_of "OPT" s)
      -> ins_series Sample.future_instrument = Some "OPT"%string)
  /\ (~ (exists s, ins_type Sample.future_instrument = Some s
                   /\ substring_of "OPT" s)
      -> ins_series Sample.future_instrument = Some "FUT"%string)
  /\ (ins_type Sample.future_instrument = Some "FUTIDX"%string
      -> ins_series Sample.future_instrument = Some "FUT"%string).
Proof.
  assert (Hin : In Sample.future_instrument
                   (instruments (loaded [Sample.future]))).
  { vm_compute. left. reflexivity. }
  split; [exact Hin|].
  exact (C7_series_from_instrument_type [Sample.future]
           Sample.future_instrument Hin).
Defined.

(* ------------------------------------------------------------------ *)
(** *** Expiry dates that do not parse *)

Lemma raw_of_error `{TryCast} c e : raw_of c = inl e -> e = InvalidInputError.
Proof.
  unfold raw_of, strptime.
  destruct (EXPIRY_DT c) as [s|], (TIMESTAMP c) as [s'|];
    repeat match goal with
           | |- context [Strptime.parse ?x] => destruct (Strptime.parse x)
           end; intros E; inversion E; reflexivity.
Qed.

Lemma raw_of_bad_expiry `{TryCast} c s :
  EXPIRY_DT c = Some s -> Strptime.parse s = None ->
  raw_of c = inl InvalidInputError.
Proof.
  intros Hc Hs. unfold raw_of, strptime. now rewrite Hc, Hs.
Qed.

Lemma create_raw_data_error `{TryCast} csv c :
  In c csv -> raw_of c = inl InvalidInputError ->
  create_raw_data csv = inl InvalidInputError.
Proof.
  induction csv as [|x csv IH]; simpl; [tauto|].
  intros [->|Hin] Hc.
  - now rewrite Hc.
  - destruct (raw_of x) as [e|r] eqn:E.
    + now rewrite (raw_of_error x e E).
    + now rewrite (IH Hin Hc).
Qed.

(** C8, on the code: a line whose EXPIRY_DT is text that strptime cannot
    parse makes the CREATE TEMP TABLE statement raise, whatever else the
    file holds; [load_data_duckdb] stops there and stores nothing, so no
    row of the file reaches any table.  (The claim has the line skipped
    and all others loaded.) *)
Theorem C8_unparseable_expiry_raises `{TryCast} csv c s db :
  In c csv -> EXPIRY_DT c = Some s -> Strptime.parse s = None ->
  load_data_duckdb csv db = (db, inl InvalidInputError).
Proof.
  intros Hin Hc Hs. unfold load_data_duckdb.
  now rewrite (create_raw_data_error csv c Hin (raw_of_bad_expiry c s Hc Hs)).
Qed.

Lemma C8_unparseable_expiry_raises_witness :
  In Sample.line_B [Sample.line_A; Sample.line_B]
  /\ EXPIRY_DT Sample.line_B = Some "32-Foo-2019"%string
  /\ Strptime.parse "32-Foo-2019" = None
  /\ @load_data_duckdb Sample.plain_text [Sample.line_A; Sample.line_B] fresh_db
     = (fresh_db, inl InvalidInputError).
Proof.
  assert (Hin : In Sample.line_B [Sample.line_A; Sample.line_B]).
  { simpl. right. left. reflexivity. }
  split; [exact Hin|]. split; [reflexivity|]. split; [reflexivity|].
  apply (@C8_unparseable_expiry_raises Sample.plain_text
           [Sample.line_A; Sample.line_B] Sample.line_B "32-Foo-2019"
           fresh_db Hin); reflexivity.
Defined.

(** What the claim describes does hold for a blank EXPIRY_DT cell, which
    is NULL: the record reaches no expiries candidate and no fact row, and
    the fact table has exactly one row fewer than with the date filled
    in. *)
Lemma null_expiry_costs_one_trade raw1 raw2 r r' :
  raw_expiry_dt r = None -> loadable r' = true ->
  List.length (trades (loaded (raw1 ++ r' :: raw2)))
  = S (List.length (trades (loaded (raw1 ++ r :: raw2)))).
Proof.
  intros Hn Hl. rewrite !loaded_trades_count, !filter_app. simpl.
  assert (E : loadable r = false) by (apply loadable_false; auto).
  rewrite E, Hl, !length_app. simpl. lia.
Qed.

(* ------------------------------------------------------------------ *)
(** *** Duplicates and exchanges *)

Lemma loaded_trade_ids_NoDup raw : NoDup (map trd_id (trades (loaded raw))).
Proof.
  destruct (loaded_trades_spec raw) as [_ ->].
  apply number_from_fst_NoDup.
Qed.

(** Two fact rows of the same record carry the same foreign keys. *)
Lemma fact_row_same_keys raw t1 t2 r :
  fact_row (loaded raw) t1 r -> fact_row (loaded raw) t2 r ->
  trd_instrument_id t1 = trd_instrument_id t2
  /\ trd_expiry_id t1 = trd_expiry_id t2.
Proof.
  intros H1 H2.
  destruct (fact_row_keys _ _ _ H1) as [i1 [e1 [Hi1 [He1 [R1 [-> ->]]]]]].
  destruct (fact_row_keys _ _ _ H2) as [i2 [e2 [Hi2 [He2 [R2 [-> ->]]]]]].
  destruct R1 as [A1 [B1 [C1 [D1 [E1 F1]]]]].
  destruct R2 as [A2 [B2 [C2 [D2 [E2 F2]]]]].
  assert (i1 = i2).
  { rewrite loaded_instruments in Hi1, Hi2.
    apply (NoDup_map_inj ins_key (instrument_rows raw));
      auto using instrument_rows_keys_NoDup.
    unfold ins_key. congruence. }
  subst i2.
  assert (e1 = e2).
  { apply (NoDup_map_inj exp_key (expiries (loaded raw)));
      auto using loaded_expiries_keys_NoDup.
    unfold exp_key. congruence. }
  subst e2. auto.
Qed.

(** C9: when a loadable record occurs twice in raw_data, the fact table
    of a first load has a row for each occurrence (two rows more than
    without them), with different trade_ids and the same instrument_id and
    expiry_id. *)
Theorem C9_duplicates_both_loaded raw1 raw2 raw3 r :
  loadable r = true ->
  (List.length (trades (loaded (raw1 ++ r :: raw2 ++ r :: raw3)))
   = List.length (trades (loaded (raw1 ++ raw2 ++ raw3))) + 2)%nat
  /\ exists T1 t1 T2 t2 T3,
       trades (loaded (raw1 ++ r :: raw2 ++ r :: raw3))
       = T1 ++ t1 :: T2 ++ t2 :: T3
       /\ fact_row (loaded (raw1 ++ r :: raw2 ++ r :: raw3)) t1 r
       /\ fact_row (loaded (raw1 ++ r :: raw2 ++ r :: raw3)) t2 r
       /\ trd_id t1 <> trd_id t2
       /\ trd_instrument_id t1 = trd_instrument_id t2
       /\ trd_expiry_id t1 = trd_expiry_id t2.
Proof.
  intros Hl. set (raw := raw1 ++ r :: raw2 ++ r :: raw3). split.
  - rewrite !loaded_trades_count. unfold raw.
    rewrite !filter_app. simpl. rewrite filter_app. simpl. rewrite Hl.
    rewrite !length_app. simpl. rewrite !length_app. simpl. lia.
  - destruct (loaded_trades_spec raw) as [H _].
    pose proof (loaded_trade_ids_NoDup raw) as Hnd.
    unfold raw in H at 3. rewrite filter_app in H. simpl in H.
    rewrite Hl, filter_app in H. simpl in H. rewrite Hl in H.
    apply Forall2_app_inv_r in H. destruct H as [T1 [R1 [_ [H E]]]].
    inversion H as [|t1 ? R2 ? Ht1 H']; subst; clear H.
    apply Forall2_app_inv_r in H'. destruct H' as [T2 [R3 [_ [H E']]]].
    inversion H as [|t2 ? T3 ? Ht2 _]; subst; clear H.
    exists T1, t1, T2, t2, T3. rewrite E in *.
    repeat split; auto; try (now apply (fact_row_same_keys raw t1 t2 r)).
    intros Hid. rewrite map_app in Hnd. simpl in Hnd.
    apply NoDup_remove_2 in Hnd. apply Hnd.
    apply in_or_app. right. rewrite Hid. apply in_map.
    apply in_or_app. right. simpl. auto.
Qed.

Lemma C9_duplicates_both_loaded_witness :
  loadable Sample.future = true
  /\ (List.length (trades (loaded ([] ++ Sample.future :: [] ++ Sample.future :: [])))
      = List.length (trades (loaded ([] ++ [] ++ []))) + 2)%nat
  /\ exists T1 t1 T2 t2 T3,
       trades (loaded ([] ++ Sample.future :: [] ++ Sample.future :: []))
       = T1 ++ t1 :: T2 ++ t2 :: T3
       /\ fact_row (loaded ([] ++ Sample.future :: [] ++ Sample.future :: []))
                   t1 Sample.future
       /\ fact_row (loaded ([] ++ Sample.future :: [] ++ Sample.future :: []))
                   t2 Sample.future
       /\ trd_id t1 <> trd_id t2
       /\ trd_instrument_id t1 = trd_instrument_id t2
       /\ trd_expiry_id t1 = trd_expiry_id t2.
Proof.
  split; [reflexivity|].
  apply (C9_duplicates_both_loaded [] [] [] Sample.future). reflexivity.
Defined.

Lemma insert_instruments_In raw db i :
  In i (instruments (insert_instruments raw db)) ->
  In i (instruments db) \/ In i (instrument_rows raw).
Proof. unfold insert_instruments. simpl. apply insert_In_inv. Qed.

Lemma instrument_rows_exchange raw i :
  In i (instrument_rows raw) -> ins_exchange_id i = Some 1.
Proof. intros Hi. now apply instrument_rows_shape in Hi. Qed.

(** C10: every row the instruments statement inserts, into any store and
    from any input, has exchange_id 1.  After a first load all
    instruments rows have exchange_id 1, which is the key of the NSE row
    alone; none has the key of BSE or MCX; and the instrument of every
    trades row is an NSE instrument. *)
Theorem C10_every_instrument_on_NSE raw :
  (forall db i,
      In i (instruments (insert_instruments raw db)) ->
      In i (instruments db) \/ ins_exchange_id i = Some 1)
  /\ Forall (fun i =>
               ins_exchange_id i = Some 1
               /\ exchanges_with_id (loaded raw) (ins_exchange_id i) = [NSE]
               /\ ins_exchange_id i <> Some (exc_id BSE)
               /\ ins_exchange_id i <> Some (exc_id MCX))
            (instruments (loaded raw))
  /\ Forall (fun t =>
               exists i,
                 instruments_with_id (loaded raw) (trd_instrument_id t) = [i]
                 /\ exchanges_with_id (loaded raw) (ins_exchange_id i) = [NSE])
            (trades (loaded raw)).
Proof.
  assert (Hnse : forall i, In i (instruments (loaded raw)) ->
                 ins_exchange_id i = Some 1
                 /\ exchanges_with_id (loaded raw) (ins_exchange_id i) = [NSE]).
  { intros i Hi. rewrite loaded_instruments in Hi.
    apply instrument_rows_exchange in Hi. rewrite Hi. split; [reflexivity|].
    unfold exchanges_with_id. now rewrite loaded_exchanges. }
  split; [|split].
  - intros db i Hi. apply insert_instruments_In in Hi.
    destruct Hi as [Hi|Hi]; [left|right]; auto.
    now apply instrument_rows_exchange with raw.
  - apply Forall_forall. intros i Hi.
    destruct (Hnse i Hi) as [E1 E2]. repeat split; auto;
      rewrite E1; discriminate.
  - apply Forall_forall. intros t Ht.
    destruct (loaded_trades_spec raw) as [H _].
    destruct (Forall2_In_l _ _ _ _ H Ht) as [r [_ Hrow]].
    destruct (fact_row_keys _ _ _ Hrow) as [i [e [Hi [_ [_ [-> _]]]]]].
    exists i. split; [now apply instruments_with_id_unique|].
    now apply Hnse.
Qed.

(* ================================================================== *)
(** ** The scenarios of the specification, run *)

(** Scenario A: one futures line gives one instrument with series "FUT",
    one expiry with strike 0 and option type "XX", and one trade dated
    2019-08-01; the run raises nothing. *)
Example scenario_A :
  @main Sample.plain_text [Sample.line_A] empty_db
  = (mkDB seed_exchanges
          [Sample.future_instrument]
          [mkExpiry 1 (Some 1) (Some Sample.expiry) (Some 0) (Some "XX"%string)]
          [Sample.future_trade]
          ["idx_trades_instrument"; "idx_trades_date"; "idx_trades_symbol_date"]%string,
     inr tt).
Proof. reflexivity. Qed.

(** Scenario B: the line with EXPIRY_DT = "32-Foo-2019" aborts the run
    before anything is stored. *)
Example scenario_B :
  @main Sample.plain_text [Sample.line_A; Sample.line_B] empty_db
  = (fresh_db, inl InvalidInputError).
Proof. reflexivity. Qed.

Example strptime_29_Aug_2019 :
  Strptime.parse "29-Aug-2019" = Some (mkTimestamp (mkDate 2019 8 29) 0).
Proof. reflexivity. Qed.

Example strptime_31_Feb_2019 : Strptime.parse "31-Feb-2019" = None.
Proof. reflexivity. Qed.

Example strptime_iso_date : Strptime.parse "2019-08-29" = None.
Proof. reflexivity. Qed.

(* ================================================================== *)
(** ** Further properties of the loader *)

(* ------------------------------------------------------------------ *)
(** *** Statements only append *)

Section AppendFacts.

Context {A : Type} (conflict : A -> A -> bool).

Lemma insert_appends cands : forall tbl,
  exists new,
    Sql.insert_do_nothing conflict tbl cands = tbl ++ new /\ incl new cands.
Proof.
  induction cands as [|c cs IH]; intros tbl; simpl.
  - exists []. split; [now rewrite app_nil_r | apply incl_refl].
  - destruct (existsb (conflict c) tbl).
    + destruct (IH tbl) as [new [E Hincl]]. exists new. split; auto.
      now apply incl_tl.
    + destruct (IH (tbl ++ [c])) as [new [E Hincl]]. exists (c :: new).
      rewrite E, <- app_assoc. split; [reflexivity|].
      intros x [<-|Hx]; simpl; auto.
Qed.

End AppendFacts.

(** What [load_raw_data] leaves behind, whatever its outcome: the two
    dimension statements have run; the trades statement has appended its
    rows, or raised and appended nothing; index names were only added. *)
Lemma load_raw_data_store raw db :
  let d2 := insert_expiries raw (insert_instruments raw db) in
  let db' := fst (load_raw_data raw db) in
  exchanges db' = exchanges db
  /\ instruments db' = instruments d2
  /\ expiries db' = expiries d2
  /\ (exists idx, indexes db' = indexes db ++ idx)
  /\ match insert_trades raw d2 with
     | inl e => trades db' = trades db /\ snd (load_raw_data raw db) = inl e
                /\ indexes db' = indexes db
     | inr d3 => trades db' = trades db ++ trade_rows raw d2
                 /\ (snd (load_raw_data raw db) = inr tt
                     \/ snd (load_raw_data raw db) = inl CatalogError)
     end.
Proof.
  intros d2 db'. unfold db', load_raw_data, bind, execute, execute_or_raise.
  fold d2. unfold insert_trades.
  destruct (existsb _ (trade_rows raw d2)); simpl.
  - repeat split; auto. exists []. now rewrite app_nil_r.
  - unfold create_index; simpl.
    repeat match goal with
           | |- context [existsb ?f ?l] => destruct (existsb f l); simpl
           end;
      repeat split; auto;
      try (eexists; rewrite <- ?app_assoc; simpl;
           try reflexivity; now rewrite app_nil_r).
Qed.

Lemma main_store `{TryCast} csv db :
  let d1 := fst (create_duckdb_schema db) in
  match create_raw_data csv with
  | inl e => main csv db = (d1, inl e)
  | inr raw => main csv db = load_raw_data raw d1
  end.
Proof.
  unfold main, load_data_duckdb, bind, create_duckdb_schema, execute, raise.
  simpl. now destruct (create_raw_data csv).
Qed.

(** X1: [create_duckdb_schema] touches the exchanges table only, and
    running it again changes nothing: every seed row then collides with a
    stored one. *)
Theorem create_duckdb_schema_idempotent db :
  let d1 := fst (create_duckdb_schema db) in
  create_duckdb_schema d1 = (d1, inr tt)
  /\ instruments d1 = instruments db /\ expiries d1 = expiries db
  /\ trades d1 = trades db /\ indexes d1 = indexes db
  /\ forall x, In x (exchanges db) -> In x (exchanges d1).
Proof.
  unfold create_duckdb_schema, execute.
  generalize seed_exchanges as seeds. intros seeds. simpl.
  repeat split; auto.
  - f_equal. f_equal. apply insert_idempotent.
    intros c _. unfold exchange_conflict. now rewrite Z.eqb_refl.
  - intros x. apply insert_keeps.
Qed.

(** X3: [main] never updates or deletes: in every table the rows that
    were there stay, in place, and new rows come after them. *)
Theorem main_only_appends `{TryCast} csv db :
  exists xs ins exs trs ns,
    exchanges (fst (main csv db)) = exchanges db ++ xs
    /\ instruments (fst (main csv db)) = instruments db ++ ins
    /\ expiries (fst (main csv db)) = expiries db ++ exs
    /\ trades (fst (main csv db)) = trades db ++ trs
    /\ indexes (fst (main csv db)) = indexes db ++ ns.
Proof.
  pose proof (main_store csv db) as Hm. cbv zeta in Hm.
  set (d1 := fst (create_duckdb_schema db)) in *.
  destruct (insert_appends exchange_conflict seed_exchanges (exchanges db))
    as [xs [Exs _]].
  assert (H1 : exchanges d1 = exchanges db ++ xs) by exact Exs.
  destruct (create_raw_data csv) as [e|raw]; rewrite Hm.
  - exists xs, [], [], [], []. simpl. rewrite !app_nil_r. auto.
  - destruct (load_raw_data_store raw d1) as [Ex [Ei [Ee [[ns Ens] Etr]]]].
    destruct (insert_appends instrument_conflict (instrument_rows raw)
                             (instruments db)) as [ins [Eis _]].
    destruct (insert_appends expiry_conflict
                (expiry_rows raw (insert_instruments raw d1))
                (expiries db)) as [exs [Ees _]].
    exists xs, ins, exs.
    destruct (insert_trades raw (insert_expiries raw (insert_instruments raw d1)))
      as [e|d3].
    + exists [], ns. destruct Etr as [Et _].
      rewrite Ex, Ei, Ee, Et, Ens, app_nil_r. auto.
    + exists (trade_rows raw (insert_expiries raw (insert_instruments raw d1))), ns.
      destruct Etr as [Et _]. rewrite Ex, Ei, Ee, Et, Ens. auto.
Qed.

Lemma insert_trades_error raw db e :
  insert_trades raw db = inl e -> e = ConstraintError.
Proof.
  unfold insert_trades. destruct (existsb _ _); intros E; inversion E.
  reflexivity.
Qed.

(** The trades SELECT reads the two dimension tables only. *)
Lemma trade_rows_ext raw db db' :
  instruments db = instruments db' -> expiries db = expiries db' ->
  trade_rows raw db = trade_rows raw db'.
Proof. unfold trade_rows, trade_source. now intros -> ->. Qed.

Lemma existsb_filter_nil {A : Type} (p : A -> bool) l :
  existsb p l = false <-> filter p l = [].
Proof.
  induction l as [|x l IH]; simpl; [tauto|].
  destruct (p x); simpl; [split; discriminate | exact IH].
Qed.

Lemma loaded_indexes raw :
  indexes (loaded raw)
  = ["idx_trades_instrument"; "idx_trades_date"; "idx_trades_symbol_date"]%string.
Proof. unfold loaded. now rewrite load_raw_data_fresh. Qed.

Lemma DB_eta db :
  db = mkDB (exchanges db) (instruments db) (expiries db) (trades db)
            (indexes db).
Proof. now destruct db. Qed.

(* ------------------------------------------------------------------ *)
(** *** Keys after a first load *)

(** X8: after a first load no two instruments rows share an
    instrument_id or an (instrument_type, symbol) pair, pairs with a NULL
    included, and no two expiries rows share an expiry_id or an
    (instrument_id, expiry_date, strike_price, option_type) tuple: the
    surrogate key and the natural key determine each other. *)
Theorem first_load_keys_are_unique raw :
  NoDup (map ins_id (instruments (loaded raw)))
  /\ NoDup (map ins_key (instruments (loaded raw)))
  /\ NoDup (map exp_id (expiries (loaded raw)))
  /\ NoDup (map exp_key (expiries (loaded raw)))
  /\ NoDup (map trd_id (trades (loaded raw))).
Proof.
  rewrite loaded_instruments.
  auto using instrument_rows_ids_NoDup, instrument_rows_keys_NoDup,
    loaded_expiries_ids_NoDup, loaded_expiries_keys_NoDup,
    loaded_trade_ids_NoDup.
Qed.

(** X9: a NULL strike and a strike of 0, or a NULL option type and "XX",
    name the same contract: two records that agree on instrument, symbol
    and expiry date and on strike and option type after the defaults get
    fact rows with the same expiry_id and instrument_id. *)
Theorem defaults_merge_contracts raw r1 r2 t1 t2 :
  fact_row (loaded raw) t1 r1 -> fact_row (loaded raw) t2 r2 ->
  raw_instrument r1 = raw_instrument r2 ->
  raw_symbol r1 = raw_symbol r2 ->
  raw_expiry_dt r1 = raw_expiry_dt r2 ->
  Sql.coalesce (raw_strike_pr r1) 0 = Sql.coalesce (raw_strike_pr r2) 0 ->
  Sql.coalesce (raw_option_typ r1) "XX"%string
  = Sql.coalesce (raw_option_typ r2) "XX"%string ->
  trd_instrument_id t1 = trd_instrument_id t2
  /\ trd_expiry_id t1 = trd_expiry_id t2.
Proof.
  intros H1 H2 Ha Hb Hd Hs Ho.
  destruct (fact_row_keys _ _ _ H1) as [i1 [e1 [Hi1 [He1 [R1 [-> ->]]]]]].
  destruct (fact_row_keys _ _ _ H2) as [i2 [e2 [Hi2 [He2 [R2 [-> ->]]]]]].
  destruct R1 as [A1 [B1 [C1 [D1 [E1 F1]]]]].
  destruct R2 as [A2 [B2 [C2 [D2 [E2 F2]]]]].
  assert (i1 = i2).
  { rewrite loaded_instruments in Hi1, Hi2.
    apply (NoDup_map_inj ins_key (instrument_rows raw));
      auto using instrument_rows_keys_NoDup.
    unfold ins_key. congruence. }
  subst i2.
  assert (e1 = e2).
  { apply (NoDup_map_inj exp_key (expiries (loaded raw)));
      auto using loaded_expiries_keys_NoDup.
    unfold exp_key. congruence. }
  subst e2. auto.
Qed.

Lemma sample_fact_rows :
  fact_row (loaded [Sample.future; Sample.future_explicit])
           Sample.future_trade Sample.future
  /\ fact_row (loaded [Sample.future; Sample.future_explicit])
              Sample.future_explicit_trade Sample.future_explicit.
Proof.
  split; exists Sample.future_instrument, Sample.future_expiry;
    (split; [vm_compute; left; reflexivity|]);
    (split; [vm_compute; left; reflexivity|]);
    (split; [unfold contract_row; repeat split|reflexivity]).
Defined.

Lemma defaults_merge_contracts_witness :
  raw_strike_pr Sample.future = None
  /\ raw_strike_pr Sample.future_explicit = Some 0
  /\ raw_option_typ Sample.future = None
  /\ raw_option_typ Sample.future_explicit = Some "XX"%string
  /\ trd_instrument_id Sample.future_trade
     = trd_instrument_id Sample.future_explicit_trade
  /\ trd_expiry_id Sample.future_trade
     = trd_expiry_id Sample.future_explicit_trade.
Proof.
  do 4 (split; [reflexivity|]).
  apply (defaults_merge_contracts [Sample.future; Sample.future_explicit]
           Sample.future Sample.future_explicit
           Sample.future_trade Sample.future_explicit_trade
           (proj1 sample_fact_rows) (proj2 sample_fact_rows));
    reflexivity.
Defined.

(* ------------------------------------------------------------------ *)
(** *** Rows written to any store *)

Lemma flat_map_nil {A B : Type} (f : A -> list B) l :
  (forall x, In x l -> f x = []) -> flat_map f l = [].
Proof.
  induction l as [|x l IH]; simpl; intros Hf; [reflexivity|].
  rewrite (Hf x) by auto. apply IH. auto.
Qed.

Lemma trade_rows_inv raw db t :
  In t (trade_rows raw db) ->
  exists r i e,
    In r raw /\ In i (instruments db) /\ In e (expiries db)
    /\ raw_timestamp r <> None
    /\ Sql.is_true (on_instrument (raw_instrument r) (raw_symbol r) i) = true
    /\ Sql.is_true (on_expiry (r, i) e) = true
    /\ t = trade_of (trd_id t, (r, i, e)).
Proof.
  unfold trade_rows. rewrite in_map_iff.
  intros [[n [[r i] e]] [<- Hin]].
  apply number_from_In_inv in Hin. simpl in Hin.
  unfold trade_source in Hin. apply filter_In in Hin.
  destruct Hin as [Hin Hts]. simpl in Hts. apply is_not_null_true in Hts.
  unfold Sql.join in Hin. apply in_flat_map in Hin.
  destruct Hin as [[r' i'] [Hri Hin]]. apply in_map_iff in Hin.
  destruct Hin as [e' [Heq He]]. inversion Heq; subst; clear Heq.
  apply filter_In in He. destruct He as [He Hone].
  apply in_flat_map in Hri. destruct Hri as [r' [Hr Hri]].
  apply in_map_iff in Hri. destruct Hri as [i' [Heq Hi]].
  inversion Heq; subst; clear Heq.
  apply filter_In in Hi. destruct Hi as [Hi Honi].
  exists r, i, e. repeat split; auto.
Qed.

(** X11: on any store, every row the trades statement appends carries
    the keys of an instruments row and of an expiries row of that store,
    and the expiries row belongs to that same instrument; its timestamp
    is not NULL, its trade_date is the date of the timestamp, and none of
    its measures is NULL. *)
Theorem appended_trades_are_well_formed raw db db' t :
  insert_trades raw db = inr db' ->
  In t (trades db') ->
  In t (trades db)
  \/ exists i e,
       In i (instruments db') /\ In e (expiries db')
       /\ trd_instrument_id t = Some (ins_id i)
       /\ trd_expiry_id t = Some (exp_id e)
       /\ exp_instrument_id e = trd_instrument_id t
       /\ trd_timestamp t <> None
       /\ trd_date t = option_map date_of_timestamp (trd_timestamp t)
       /\ measures_not_null t.
Proof.
  unfold insert_trades.
  destruct (existsb _ (trade_rows raw db)); [discriminate|].
  intros E Hin. inversion E; subst; clear E. simpl in *.
  apply in_app_or in Hin. destruct Hin as [Hin|Hin]; [left; exact Hin|right].
  apply trade_rows_inv in Hin.
  destruct Hin as [r [i [e [Hr [Hi [He [Hts [_ [Hone Ht]]]]]]]]].
  apply on_expiry_true in Hone. destruct Hone as [Hid _].
  exists i, e. rewrite Ht. simpl.
  repeat split; auto; apply coalesce_not_null.
Qed.

Lemma appended_trades_are_well_formed_witness :
  insert_trades [Sample.future]
    (insert_expiries [Sample.future]
       (insert_instruments [Sample.future] fresh_db))
  = inr (loaded_tables [Sample.future])
  /\ In Sample.future_trade (trades (loaded_tables [Sample.future]))
  /\ (In Sample.future_trade
         (trades (insert_expiries [Sample.future]
                    (insert_instruments [Sample.future] fresh_db)))
      \/ exists i e,
           In i (instruments (loaded_tables [Sample.future]))
           /\ In e (expiries (loaded_tables [Sample.future]))
           /\ trd_instrument_id Sample.future_trade = Some (ins_id i)
           /\ trd_expiry_id Sample.future_trade = Some (exp_id e)
           /\ exp_instrument_id e = trd_instrument_id Sample.future_trade
           /\ trd_timestamp Sample.future_trade <> None
           /\ trd_date Sample.future_trade
              = option_map date_of_timestamp (trd_timestamp Sample.future_trade)
           /\ measures_not_null Sample.future_trade).
Proof.
  assert (Hi : insert_trades [Sample.future]
                 (insert_expiries [Sample.future]
                    (insert_instruments [Sample.future] fresh_db))
               = inr (loaded_tables [Sample.future])) by reflexivity.
  assert (Hin : In Sample.future_trade (trades (loaded_tables [Sample.future])))
    by (vm_compute; left; reflexivity).
  split; [exact Hi|]. split; [exact Hin|].
  exact (appended_trades_are_well_formed [Sample.future] _ _
           Sample.future_trade Hi Hin).
Defined.

Lemma expiry_rows_inv_any raw db c :
  In c (expiry_rows raw db) ->
  exists i,
    In i (instruments db)
    /\ exp_instrument_id c = Some (ins_id i)
    /\ ins_type i <> None /\ ins_symbol i <> None
    /\ exp_date c <> None /\ exp_strike_price c <> None
    /\ exp_option_type c <> None.
Proof.
  unfold expiry_rows. rewrite in_map_iff.
  intros [[n [con i]] [<- Hin]].
  apply number_from_In_inv in Hin. simpl in Hin.
  unfold Sql.join in Hin. apply in_flat_map in Hin.
  destruct Hin as [con' [Hcon Hin]]. apply in_map_iff in Hin.
  destruct Hin as [i' [Heq Hi]]. inversion Heq; subst con' i'; clear Heq.
  apply filter_In in Hi. destruct Hi as [Hi Hon].
  apply on_instrument_true in Hon. destruct Hon as [Hk [Ha Hb]].
  apply distinct_contracts_In in Hcon. destruct Hcon as [r [Hr [Hd <-]]].
  unfold ins_key in Hk. inversion Hk as [[Ht Hs]]. simpl in *.
  exists i. simpl. rewrite Ht, Hs.
  repeat split; auto using coalesce_not_null.
Qed.

(** X12: on any store, every row the expiries statement adds has no
    NULL in it and belongs to an instruments row of that store whose
    instrument_type and symbol are not NULL. *)
Theorem added_expiries_have_no_null raw db e :
  In e (expiries (insert_expiries raw db)) ->
  In e (expiries db)
  \/ exists i,
       In i (instruments db)
       /\ exp_instrument_id e = Some (ins_id i)
       /\ ins_type i <> None /\ ins_symbol i <> None
       /\ exp_date e <> None /\ exp_strike_price e <> None
       /\ exp_option_type e <> None.
Proof.
  unfold insert_expiries. simpl. intros Hin.
  apply insert_In_inv in Hin. destruct Hin as [Hin|Hin]; [left; exact Hin|].
  right. now apply expiry_rows_inv_any with raw.
Qed.

Lemma added_expiries_have_no_null_witness :
  In Sample.future_expiry
     (expiries (insert_expiries [Sample.future; Sample.no_symbol]
                  (insert_instruments [Sample.future; Sample.no_symbol]
                                      fresh_db)))
  /\ (In Sample.future_expiry
         (expiries (insert_instruments [Sample.future; Sample.no_symbol]
                                       fresh_db))
      \/ exists i,
           In i (instruments
                   (insert_instruments [Sample.future; Sample.no_symbol]
                                       fresh_db))
           /\ exp_instrument_id Sample.future_expiry = Some (ins_id i)
           /\ ins_type i <> None /\ ins_symbol i <> None
           /\ exp_date Sample.future_expiry <> None
           /\ exp_strike_price Sample.future_expiry <> None
           /\ exp_option_type Sample.future_expiry <> None).
Proof.
  assert (Hin : In Sample.future_expiry
                   (expiries (insert_expiries
                                [Sample.future; Sample.no_symbol]
                                (insert_instruments
                                   [Sample.future; Sample.no_symbol]
                                   fresh_db)))).
  { vm_compute. left. reflexivity. }
  split; [exact Hin|].
  exact (added_expiries_have_no_null [Sample.future; Sample.no_symbol] _
           Sample.future_expiry Hin).
Defined.

(* ------------------------------------------------------------------ *)
(** *** The volume histogram reads the defaulted measures *)

Lemma firstn_map {A B : Type} (f : A -> B) n l :
  firstn n (map f l) = map f (firstn n l).
Proof.
  revert l; induction n as [|n IH]; intros [|x l]; simpl; auto.
  now rewrite IH.
Qed.


(* ================================================================== *)
(** ** The load under any row order *)

(** For the order of the file the statements are the plain ones. *)
Lemma load_raw_data_by_file_order raw :
  load_raw_data_by file_order raw = load_raw_data raw.
Proof. reflexivity. Qed.

Lemma main_by_file_order `{TryCast} csv : main_by file_order csv = main csv.
Proof. reflexivity. Qed.

Section ScanFacts.

Variable o : Order.

Context {A : Type}.

Lemma scan_In (l : list A) x : In x (scan o l) <-> In x l.
Proof.
  split; apply Permutation_in;
    [apply scan_perm | apply Permutation_sym, scan_perm].
Qed.

Lemma scan_length (l : list A) : List.length (scan o l) = List.length l.
Proof. apply Permutation_length, scan_perm. Qed.

Lemma scan_map {B : Type} (f : A -> B) (l : list A) :
  Permutation (map f (scan o l)) (map f l).
Proof. apply Permutation_map, scan_perm. Qed.

Lemma scan_NoDup_map {B : Type} (f : A -> B) (l : list A) :
  NoDup (map f l) -> NoDup (map f (scan o l)).
Proof.
  apply Permutation_NoDup, Permutation_sym, scan_map.
Qed.

(** ROW_NUMBER() hands out the same numbers whatever the order. *)
Lemma numbers_scan (l : list A) n :
  map fst (Sql.number_from n (scan o l)) = map fst (Sql.number_from n l).
Proof. apply number_from_fst_length, scan_length. Qed.

End ScanFacts.

Section ConflictFree.

Context {A : Type} (conflict : A -> A -> bool).

(** Candidates that collide with nothing stored and not with one another
    are all inserted. *)
Lemma insert_all_new cands : forall tbl,
  Forall (fun c => existsb (conflict c) tbl = false) cands ->
  ForallOrdPairs (fun x y => conflict y x = false) cands ->
  Sql.insert_do_nothing conflict tbl cands = tbl ++ cands.
Proof.
  induction cands as [|c cs IH]; intros tbl Hnew Hfree; simpl.
  - now rewrite app_nil_r.
  - inversion Hnew as [|? ? Hc Hcs]; subst.
    inversion Hfree as [|? ? Hcc Hfree']; subst.
    rewrite Hc, IH, <- app_assoc; auto.
    rewrite Forall_forall in *. intros y Hy.
    rewrite existsb_app. simpl. rewrite (Hcs y Hy), (Hcc y Hy). reflexivity.
Qed.

Lemma conflict_free_by_keys {B C : Type} (f : A -> B) (g : A -> C) l :
  (forall x y, conflict y x = true -> f y = f x \/ g y = g x) ->
  NoDup (map f l) -> NoDup (map g l) ->
  ForallOrdPairs (fun x y => conflict y x = false) l.
Proof.
  intros Hk. induction l as [|a l IH]; simpl; intros Hf Hg; constructor.
  - inversion Hf as [|? ? Hfa _]; inversion Hg as [|? ? Hga _]; subst.
    apply Forall_forall. intros y Hy. apply not_true_is_false. intros Hc.
    destruct (Hk a y Hc) as [E|E].
    + apply Hfa. rewrite <- E. now apply in_map.
    + apply Hga. rewrite <- E. now apply in_map.
  - inversion Hf; inversion Hg; subst. auto.
Qed.

End ConflictFree.

(* ------------------------------------------------------------------ *)
(** *** Instruments *)

Section InstrumentsBy.

Variable o : Order.

Lemma instrument_rows_by_ids raw :
  Permutation (map ins_id (instrument_rows_by o raw))
              (map fst (Sql.row_number (distinct_symbols raw))).
Proof.
  unfold instrument_rows_by, Sql.row_number.
  rewrite scan_map, map_map, (map_ext _ fst) by reflexivity.
  now rewrite numbers_scan.
Qed.

Lemma instrument_rows_by_keys raw :
  Permutation (map ins_key (instrument_rows_by o raw)) (distinct_symbols raw).
Proof.
  unfold instrument_rows_by, Sql.row_number.
  rewrite scan_map, map_map, (map_ext _ snd) by apply ins_key_instrument_of.
  rewrite number_from_snd. apply scan_perm.
Qed.

Lemma instrument_rows_by_ids_NoDup raw :
  NoDup (map ins_id (instrument_rows_by o raw)).
Proof.
  eapply Permutation_NoDup;
    [apply Permutation_sym, instrument_rows_by_ids|].
  apply number_from_fst_NoDup.
Qed.

Lemma instrument_rows_by_keys_NoDup raw :
  NoDup (map ins_key (instrument_rows_by o raw)).
Proof.
  eapply Permutation_NoDup;
    [apply Permutation_sym, instrument_rows_by_keys|].
  apply distinct_NoDup.
Qed.

Lemma instrument_rows_by_complete raw a b :
  In (a, b) (distinct_symbols raw) ->
  exists i, In i (instrument_rows_by o raw) /\ ins_key i = (a, b).
Proof.
  intros Hin.
  apply (Permutation_in _ (Permutation_sym (instrument_rows_by_keys raw)))
    in Hin.
  apply in_map_iff in Hin. destruct Hin as [i [Hk Hi]]. now exists i.
Qed.

Lemma instrument_rows_by_exchange raw i :
  In i (instrument_rows_by o raw) ->
  ins_exchange_id i = Some 1 /\ ins_series i = Some (series_of (ins_type i)).
Proof.
  unfold instrument_rows_by. rewrite scan_In, in_map_iff.
  intros [[n [a b]] [<- _]]. split; reflexivity.
Qed.

(** On an empty table every candidate is inserted, in any order. *)
Lemma insert_instrument_rows_by_empty raw :
  Sql.insert_do_nothing instrument_conflict [] (instrument_rows_by o raw)
  = instrument_rows_by o raw.
Proof.
  apply (insert_all_new instrument_conflict _ []).
  - apply Forall_forall. reflexivity.
  - apply (conflict_free_by_keys _ ins_id ins_key);
      auto using instrument_rows_by_ids_NoDup, instrument_rows_by_keys_NoDup.
    intros x y Hc. apply instrument_conflict_inv in Hc. tauto.
Qed.

End InstrumentsBy.

(* ------------------------------------------------------------------ *)
(** *** The joins, on any pair of dimension tables *)

(** In a table without repeated pairs, a record with both identity
    columns joins exactly the row of its pair. *)
Lemma instrument_match_in tbl a b i :
  NoDup (map ins_key tbl) -> In i tbl -> ins_key i = (a, b) ->
  a <> None -> b <> None ->
  filter (fun i => Sql.is_true (on_instrument a b i)) tbl = [i].
Proof.
  intros Hnd Hi Hk Ha Hb.
  apply (filter_singleton ins_key); auto.
  intros x Hx. rewrite on_instrument_true, Hk. tauto.
Qed.

(** In a table without repeated contract tuples and without NULL strike
    or option type, a record with an expiry date joins exactly its
    contract row. *)
Lemma expiry_match_in tbl r i e :
  NoDup (map exp_key tbl) ->
  (forall x, In x tbl ->
             exp_strike_price x <> None /\ exp_option_type x <> None) ->
  In e tbl -> contract_row r i e -> raw_expiry_dt r <> None ->
  filter (fun ex => Sql.is_true (on_expiry (r, i) ex)) tbl = [e].
Proof.
  intros Hnd Hnn He Hrow Hd.
  apply (filter_singleton exp_key); auto.
  intros x Hx. rewrite on_expiry_true.
  destruct Hrow as [_ [_ [E1 [E2 [E3 E4]]]]].
  unfold exp_key. rewrite E1, E2, E3, E4.
  destruct (Hnn x Hx) as [X3 X4].
  destruct (exp_strike_price x) as [sx|] eqn:Es; [|congruence].
  destruct (exp_option_type x) as [ox|] eqn:Eo; [|congruence].
  simpl. split.
  - intros [H1 [H2 [_ [H3 H4]]]]. congruence.
  - intros H. inversion H as [[K1 K2 K3 K4]].
    repeat split; auto; congruence.
Qed.

Section JoinFacts.

Variables (raw : list RawRow) (db : DB).

Hypothesis pairs_unique : NoDup (map ins_key (instruments db)).

Hypothesis pairs_complete :
  forall r, In r raw ->
    exists i, In i (instruments db)
              /\ ins_key i = (raw_instrument r, raw_symbol r).

Hypothesis contracts_unique : NoDup (map exp_key (expiries db)).

Hypothesis contracts_not_null :
  forall x, In x (expiries db) ->
            exp_strike_price x <> None /\ exp_option_type x <> None.

Hypothesis contracts_complete :
  forall r i, In r raw -> In i (instruments db) ->
    ins_key i = (raw_instrument r, raw_symbol r) ->
    raw_instrument r <> None -> raw_symbol r <> None ->
    raw_expiry_dt r <> None ->
    exists e, In e (expiries db) /\ contract_row r i e.

(** The FROM ... JOIN ... WHERE of the trades statement then yields one
    row per loadable record, and nothing else. *)
Lemma trade_source_spec :
  Forall2 (fun y r =>
             fst (fst y) = r
             /\ In (snd (fst y)) (instruments db)
             /\ In (snd y) (expiries db)
             /\ contract_row r (snd (fst y)) (snd y))
          (trade_source raw db) (filter loadable raw).
Proof.
  unfold trade_source, Sql.join.
  rewrite filter_flat_map, flat_map_flat_map.
  apply flat_map_Forall2_filter.
  - intros r Hr Hl. apply loadable_true in Hl. destruct Hl as [Ha [Hb [Hd Ht]]].
    destruct (pairs_complete r Hr) as [i [Hi Hk]].
    destruct (contracts_complete r i Hr Hi Hk Ha Hb Hd) as [e [He Hrow]].
    exists (r, i, e).
    rewrite (instrument_match_in _ _ _ i pairs_unique Hi Hk Ha Hb). simpl.
    rewrite (expiry_match_in _ r i e contracts_unique contracts_not_null
               He Hrow Hd). simpl.
    apply is_not_null_true in Ht. rewrite Ht. simpl. auto.
  - intros r Hr Hl.
    destruct (raw_instrument r) as [a|] eqn:Ea;
      [|rewrite instrument_no_match by auto; reflexivity].
    destruct (raw_symbol r) as [b|] eqn:Eb;
      [|rewrite instrument_no_match by auto; reflexivity].
    destruct (pairs_complete r Hr) as [i [Hi Hk]]. rewrite Ea, Eb in Hk.
    rewrite (instrument_match_in _ _ _ i pairs_unique Hi Hk)
      by discriminate.
    simpl. rewrite app_nil_r.
    destruct (raw_expiry_dt r) as [d|] eqn:Ed;
      [|rewrite expiry_no_match by auto; reflexivity].
    destruct (contracts_complete r i Hr Hi) as [e [He Hrow]];
      try congruence.
    rewrite (expiry_match_in _ r i e contracts_unique contracts_not_null
               He Hrow) by congruence.
    simpl. apply loadable_false in Hl.
    destruct Hl as [Hl|[Hl|[Hl|Hl]]]; try congruence.
    now rewrite Hl.
Qed.

End JoinFacts.

(* ------------------------------------------------------------------ *)
(** *** Expiries *)

Section ExpiriesBy.

Variable o : Order.

Lemma expiry_rows_by_ext raw db db' :
  instruments db = instruments db' ->
  expiry_rows_by o raw db = expiry_rows_by o raw db'.
Proof. unfold expiry_rows_by. now intros ->. Qed.

Lemma trade_rows_by_ext raw db db' :
  instruments db = instruments db' -> expiries db = expiries db' ->
  trade_rows_by o raw db = trade_rows_by o raw db'.
Proof. unfold trade_rows_by, trade_source. now intros -> ->. Qed.

Lemma expiry_rows_by_ids_NoDup raw db :
  NoDup (map exp_id (expiry_rows_by o raw db)).
Proof.
  unfold expiry_rows_by, Sql.row_number. apply scan_NoDup_map.
  rewrite map_map, (map_ext _ fst) by reflexivity.
  apply number_from_fst_NoDup.
Qed.

(** Every candidate of the expiries SELECT is the contract of a record
    with instrument, symbol and expiry date, for an instruments row of
    the store. *)
Lemma expiry_rows_by_inv raw db c :
  In c (expiry_rows_by o raw db) ->
  exists r i,
    In r raw /\ In i (instruments db)
    /\ raw_instrument r <> None /\ raw_symbol r <> None
    /\ raw_expiry_dt r <> None /\ contract_row r i c.
Proof.
  unfold expiry_rows_by. rewrite scan_In, in_map_iff.
  intros [[n [con i]] [<- Hin]].
  apply number_from_In_inv in Hin. simpl in Hin. apply scan_In in Hin.
  unfold Sql.join in Hin. apply in_flat_map in Hin.
  destruct Hin as [con' [Hcon Hin]]. apply in_map_iff in Hin.
  destruct Hin as [i' [Heq Hi]]. inversion Heq; subst con' i'; clear Heq.
  apply filter_In in Hi. destruct Hi as [Hi Hon].
  apply on_instrument_true in Hon. destruct Hon as [Hk [Ha Hb]].
  apply distinct_contracts_In in Hcon. destruct Hcon as [r [Hr [Hd <-]]].
  unfold ins_key in Hk. inversion Hk as [[Ht Hs]]. simpl in *.
  exists r, i. unfold contract_row. simpl. rewrite Ht, Hs.
  repeat split; auto.
Qed.

Lemma expiry_rows_by_complete raw db r i :
  In r raw -> In i (instruments db) ->
  ins_key i = (raw_instrument r, raw_symbol r) ->
  raw_instrument r <> None -> raw_symbol r <> None ->
  raw_expiry_dt r <> None ->
  exists c, In c (expiry_rows_by o raw db) /\ contract_row r i c.
Proof.
  intros Hr Hi Hk Ha Hb Hd.
  assert (Hj : In (contract_of r, i)
                  (scan o
                     (Sql.join
                        (fun r i => on_instrument (con_instrument r)
                                                  (con_symbol r) i)
                        (distinct_contracts raw) (instruments db)))).
  { apply scan_In. unfold Sql.join. apply in_flat_map.
    exists (contract_of r). split.
    - apply distinct_contracts_In. exists r. auto.
    - apply in_map. apply filter_In. split; auto.
      apply on_instrument_true. simpl. auto. }
  destruct (number_from_In_snd _ 1 _ Hj) as [k Hk'].
  exists (expiry_of (k, (contract_of r, i))). split.
  - unfold expiry_rows_by. apply scan_In. now apply in_map.
  - unfold ins_key in Hk. inversion Hk. unfold contract_row. simpl.
    repeat split; auto.
Qed.

Lemma contract_row_key r i c c' :
  contract_row r i c -> contract_row r i c' -> exp_key c = exp_key c'.
Proof.
  unfold contract_row, exp_key.
  intros [_ [_ [A1 [A2 [A3 A4]]]]] [_ [_ [B1 [B2 [B3 B4]]]]]. congruence.
Qed.

Lemma contract_row_not_null r i c :
  contract_row r i c -> raw_expiry_dt r <> None ->
  exp_instrument_id c <> None /\ exp_date c <> None
  /\ exp_strike_price c <> None /\ exp_option_type c <> None.
Proof.
  intros [_ [_ [A1 [A2 [A3 A4]]]]] Hd. rewrite A1, A2, A3, A4.
  repeat split; auto using coalesce_not_null; discriminate.
Qed.

(** The expiries table after the statement has run on an empty table. *)
Section OnEmpty.

Variables (raw : list RawRow) (db : DB).

Let stored :=
  Sql.insert_do_nothing expiry_conflict [] (expiry_rows_by o raw db).

Lemma stored_expiries_inv e : In e stored -> In e (expiry_rows_by o raw db).
Proof.
  intros H. apply insert_In_inv in H. destruct H as [[]|H]. exact H.
Qed.

Lemma stored_expiries_ids_NoDup : NoDup (map exp_id stored).
Proof.
  apply insert_NoDup_key; [|constructor].
  intros c x _. apply expiry_conflict_id.
Qed.

Lemma stored_expiries_keys_NoDup : NoDup (map exp_key stored).
Proof.
  apply insert_NoDup_key; [|constructor].
  intros c x Hc Hk. apply expiry_rows_by_inv in Hc.
  destruct Hc as [r [i [_ [_ [_ [_ [Hd Hrow]]]]]]].
  destruct (contract_row_not_null r i c Hrow Hd) as [N1 [N2 [N3 N4]]].
  now apply expiry_conflict_key.
Qed.

Lemma stored_expiries_not_null e :
  In e stored -> exp_strike_price e <> None /\ exp_option_type e <> None.
Proof.
  intros He. apply stored_expiries_inv, expiry_rows_by_inv in He.
  destruct He as [r [i [_ [_ [_ [_ [Hd Hrow]]]]]]].
  now destruct (contract_row_not_null r i e Hrow Hd) as [_ [_ [N3 N4]]].
Qed.

(** Whichever of two colliding candidates was kept, the contract of every
    record is stored. *)
Lemma stored_expiries_complete r i :
  In r raw -> In i (instruments db) ->
  ins_key i = (raw_instrument r, raw_symbol r) ->
  raw_instrument r <> None -> raw_symbol r <> None ->
  raw_expiry_dt r <> None ->
  exists e, In e stored /\ contract_row r i e.
Proof.
  intros Hr Hi Hk Ha Hb Hd.
  destruct (expiry_rows_by_complete raw db r i Hr Hi Hk Ha Hb Hd)
    as [c [Hc Hrow]].
  assert (H : existsb (expiry_conflict c) stored = true).
  { apply insert_covers; auto. intros x _. now apply expiry_conflict_id. }
  apply existsb_exists in H. destruct H as [e [He Hce]].
  exists e. split; auto.
  assert (Hke : exp_key e = exp_key c).
  { apply expiry_conflict_inv in Hce. destruct Hce as [Hid|Hkey]; auto.
    f_equal. symmetry.
    apply (NoDup_map_inj exp_id (expiry_rows_by o raw db));
      auto using expiry_rows_by_ids_NoDup, stored_expiries_inv. }
  unfold exp_key in Hke. inversion Hke as [[K1 K2 K3 K4]].
  unfold contract_row in *. rewrite K1, K2, K3, K4. exact Hrow.
Qed.

End OnEmpty.

End ExpiriesBy.

(* ------------------------------------------------------------------ *)
(** *** A first load *)

Section FirstLoadBy.

Variable o : Order.

Lemma insert_instruments_by_fresh raw :
  instruments (insert_instruments_by o raw fresh_db) = instrument_rows_by o raw.
Proof.
  rewrite fresh_db_eq. unfold insert_instruments_by. simpl.
  apply insert_instrument_rows_by_empty.
Qed.

(** Under any order a first load raises nothing. *)
Lemma load_raw_data_by_fresh raw :
  load_raw_data_by o raw fresh_db
  = (mkDB seed_exchanges
          (instrument_rows_by o raw)
          (Sql.insert_do_nothing expiry_conflict []
             (expiry_rows_by o raw (insert_instruments_by o raw fresh_db)))
          (trade_rows_by o raw
             (insert_expiries_by o raw (insert_instruments_by o raw fresh_db)))
          ["idx_trades_instrument"; "idx_trades_date"; "idx_trades_symbol_date"]%string,
     inr tt).
Proof.
  rewrite fresh_db_eq.
  unfold load_raw_data_by, bind, execute, execute_or_raise, insert_trades_by.
  simpl trades. rewrite existsb_in_empty. simpl.
  now rewrite insert_instrument_rows_by_empty.
Qed.

Lemma loaded_by_ok raw : snd (load_raw_data_by o raw fresh_db) = inr tt.
Proof. now rewrite load_raw_data_by_fresh. Qed.

Lemma loaded_by_exchanges raw : exchanges (loaded_by o raw) = seed_exchanges.
Proof. unfold loaded_by. now rewrite load_raw_data_by_fresh. Qed.

Lemma loaded_by_indexes raw :
  indexes (loaded_by o raw)
  = ["idx_trades_instrument"; "idx_trades_date"; "idx_trades_symbol_date"]%string.
Proof. unfold loaded_by. now rewrite load_raw_data_by_fresh. Qed.

Lemma loaded_by_instruments raw :
  instruments (loaded_by o raw) = instrument_rows_by o raw.
Proof. unfold loaded_by. now rewrite load_raw_data_by_fresh. Qed.

Lemma loaded_by_expiries raw :
  expiries (loaded_by o raw)
  = Sql.insert_do_nothing expiry_conflict []
      (expiry_rows_by o raw (loaded_by o raw)).
Proof.
  unfold loaded_by at 1. rewrite load_raw_data_by_fresh. simpl.
  f_equal. apply expiry_rows_by_ext.
  now rewrite loaded_by_instruments, insert_instruments_by_fresh.
Qed.

Lemma loaded_by_trades raw :
  trades (loaded_by o raw) = trade_rows_by o raw (loaded_by o raw).
Proof.
  unfold loaded_by at 1. rewrite load_raw_data_by_fresh. simpl.
  apply trade_rows_by_ext.
  - rewrite loaded_by_instruments, <- (insert_instruments_by_fresh raw).
    reflexivity.
  - rewrite loaded_by_expiries.
    transitivity (Sql.insert_do_nothing expiry_conflict []
                    (expiry_rows_by o raw (insert_instruments_by o raw fresh_db)));
      [reflexivity|].
    f_equal. apply expiry_rows_by_ext.
    now rewrite loaded_by_instruments, insert_instruments_by_fresh.
Qed.

Lemma loaded_by_keys raw :
  NoDup (map ins_id (instruments (loaded_by o raw)))
  /\ NoDup (map ins_key (instruments (loaded_by o raw)))
  /\ NoDup (map exp_id (expiries (loaded_by o raw)))
  /\ NoDup (map exp_key (expiries (loaded_by o raw))).
Proof.
  rewrite loaded_by_instruments, loaded_by_expiries.
  auto using instrument_rows_by_ids_NoDup, instrument_rows_by_keys_NoDup,
    stored_expiries_ids_NoDup, stored_expiries_keys_NoDup.
Qed.

Lemma loaded_by_contract raw r i :
  In r raw -> In i (instruments (loaded_by o raw)) ->
  ins_key i = (raw_instrument r, raw_symbol r) ->
  raw_instrument r <> None -> raw_symbol r <> None ->
  raw_expiry_dt r <> None ->
  exists e, In e (expiries (loaded_by o raw)) /\ contract_row r i e.
Proof. rewrite loaded_by_expiries. apply stored_expiries_complete. Qed.

Lemma loaded_by_trade_source raw :
  Forall2 (fun y r =>
             fst (fst y) = r
             /\ In (snd (fst y)) (instruments (loaded_by o raw))
             /\ In (snd y) (expiries (loaded_by o raw))
             /\ contract_row r (snd (fst y)) (snd y))
          (trade_source raw (loaded_by o raw)) (filter loadable raw).
Proof.
  destruct (loaded_by_keys raw) as [_ [Hk [_ Hek]]].
  apply trade_source_spec; auto.
  - intros r Hr. rewrite loaded_by_instruments.
    apply instrument_rows_by_complete, distinct_symbols_In. exists r. auto.
  - rewrite loaded_by_expiries. apply stored_expiries_not_null.
  - apply loaded_by_contract.
Qed.

Lemma trade_rows_by_ids raw db :
  Permutation (map trd_id (trade_rows_by o raw db))
              (map fst (Sql.row_number (trade_source raw db))).
Proof.
  unfold trade_rows_by, Sql.row_number.
  rewrite scan_map, map_map, (map_ext _ fst) by reflexivity.
  now rewrite numbers_scan.
Qed.

Lemma without_id_trade_of p : without_id (trade_of p) = trade_of (0, snd p).
Proof. reflexivity. Qed.

(** Without their trade_ids, the candidates of the trades statement are
    the joined rows, in some order. *)
Lemma trade_rows_by_content raw db :
  Permutation (map without_id (trade_rows_by o raw db))
              (map (fun y => trade_of (0, y)) (trade_source raw db)).
Proof.
  unfold trade_rows_by, Sql.row_number.
  rewrite scan_map, map_map, (map_ext _ _ without_id_trade_of).
  rewrite <- (map_map snd (fun y => trade_of (0, y))), number_from_snd.
  apply Permutation_map, scan_perm.
Qed.

(** The fact table after a first load under any order: the fact rows of
    the loadable records, one each, in some order. *)
Lemma loaded_by_trades_spec raw :
  exists rs,
    Permutation rs (filter loadable raw)
    /\ Forall2 (fact_row (loaded_by o raw)) (trades (loaded_by o raw)) rs.
Proof.
  pose proof (loaded_by_trade_source raw) as H.
  rewrite loaded_by_trades. unfold trade_rows_by, Sql.row_number.
  set (R := fun y r =>
              fst (fst y) = r
              /\ In (snd (fst y)) (instruments (loaded_by o raw))
              /\ In (snd y) (expiries (loaded_by o raw))
              /\ contract_row r (snd (fst y)) (snd y)) in H.
  destruct (Permutation_Forall2 (Permutation_sym (scan_perm o _ _)) H)
    as [rs1 [P1 H1]].
  apply (numbered_facts (loaded_by o raw) _ _ 1) in H1.
  destruct (Permutation_Forall2 (Permutation_sym (scan_perm o _ _)) H1)
    as [rs2 [P2 H2]].
  exists rs2. split; [|exact H2].
  apply Permutation_sym. now transitivity rs1.
Qed.

Lemma loaded_by_trade_ids raw :
  Permutation (map trd_id (trades (loaded_by o raw)))
              (map fst (Sql.row_number (filter loadable raw))).
Proof.
  rewrite loaded_by_trades, trade_rows_by_ids. unfold Sql.row_number.
  erewrite number_from_fst_length; [reflexivity|].
  pose proof (loaded_by_trade_source raw) as H.
  now apply Forall2_length in H.
Qed.

Lemma loaded_by_trades_count raw :
  List.length (trades (loaded_by o raw)) = List.length (filter loadable raw).
Proof.
  rewrite <- (length_map trd_id), (Permutation_length (loaded_by_trade_ids raw)).
  unfold Sql.row_number.
  now rewrite length_map, <- (length_map snd), number_from_snd.
Qed.

End FirstLoadBy.

(* ------------------------------------------------------------------ *)
(** *** A second load over the store of the first *)

Section SecondLoad.

Variables o1 o2 : Order.

(** Every instruments candidate of the second load has an id the first
    load has used. *)
Lemma insert_instruments_by_again raw :
  insert_instruments_by o2 raw (loaded_by o1 raw) = loaded_by o1 raw.
Proof.
  rewrite (DB_eta (loaded_by o1 raw)) at 2. unfold insert_instruments_by.
  f_equal. apply insert_all_conflict. intros c Hc.
  assert (Hid : In (ins_id c) (map ins_id (instruments (loaded_by o1 raw)))).
  { rewrite loaded_by_instruments.
    apply (Permutation_in _ (Permutation_sym (instrument_rows_by_ids o1 raw))).
    apply (Permutation_in _ (instrument_rows_by_ids o2 raw)).
    now apply in_map. }
  apply in_map_iff in Hid. destruct Hid as [x [Hx Hin]].
  apply existsb_exists. exists x. split; auto.
  unfold instrument_conflict. rewrite Hx, Z.eqb_refl. reflexivity.
Qed.

(** Every expiries candidate of the second load is a contract the first
    load has stored. *)
Lemma insert_expiries_by_again raw :
  insert_expiries_by o2 raw (loaded_by o1 raw) = loaded_by o1 raw.
Proof.
  rewrite (DB_eta (loaded_by o1 raw)) at 2. unfold insert_expiries_by.
  f_equal. apply insert_all_conflict. intros c Hc.
  apply expiry_rows_by_inv in Hc.
  destruct Hc as [r [i [Hr [Hi [Ha [Hb [Hd Hrow]]]]]]].
  assert (Hk : ins_key i = (raw_instrument r, raw_symbol r)).
  { destruct Hrow as [A [B _]]. unfold ins_key. congruence. }
  destruct (loaded_by_contract o1 raw r i Hr Hi Hk Ha Hb Hd) as [e [He Hrow']].
  apply existsb_exists. exists e. split; auto.
  destruct (contract_row_not_null r i c Hrow Hd) as [N1 [N2 [N3 N4]]].
  apply expiry_conflict_key; auto. now apply contract_row_key with r i.
Qed.

Lemma trade_rows_by_length o raw db :
  List.length (trade_rows_by o raw db) = List.length (trade_source raw db).
Proof.
  rewrite <- (length_map trd_id), (Permutation_length (trade_rows_by_ids o raw db)).
  unfold Sql.row_number.
  now rewrite length_map, <- (length_map snd), number_from_snd.
Qed.

(** The trade_ids of the second load are those of the first: with a
    fact row stored the statement raises, else it has nothing to
    insert. *)
Lemma insert_trades_by_again raw :
  insert_trades_by o2 raw (loaded_by o1 raw)
  = if existsb loadable raw then inl ConstraintError
    else inr (loaded_by o1 raw).
Proof.
  unfold insert_trades_by.
  pose proof (trade_rows_by_ids o2 raw (loaded_by o1 raw)) as P2.
  pose proof (trade_rows_by_ids o1 raw (loaded_by o1 raw)) as P1.
  rewrite <- loaded_by_trades in P1.
  assert (Hlen : List.length (trade_rows_by o2 raw (loaded_by o1 raw))
                 = List.length (filter loadable raw)).
  { rewrite trade_rows_by_length, <- (trade_rows_by_length o1),
      <- loaded_by_trades. apply loaded_by_trades_count. }
  destruct (existsb loadable raw) eqn:El.
  - destruct (trade_rows_by o2 raw (loaded_by o1 raw)) as [|c cs] eqn:Ec.
    + exfalso. simpl in Hlen. symmetry in Hlen.
      apply length_zero_iff_nil, existsb_filter_nil in Hlen. congruence.
    + assert (Hid : In (trd_id c) (map trd_id (trades (loaded_by o1 raw)))).
      { apply (Permutation_in _ (Permutation_sym P1)).
        apply (Permutation_in _ P2). simpl. auto. }
      apply in_map_iff in Hid. destruct Hid as [x [Hx Hin]].
      assert (E : existsb (fun x0 => trd_id c =? trd_id x0)
                          (trades (loaded_by o1 raw)) = true).
      { apply existsb_exists. exists x. split; auto.
        apply Z.eqb_eq. congruence. }
      simpl. now rewrite E.
  - apply existsb_filter_nil in El. rewrite El in Hlen. simpl in Hlen.
    apply length_zero_iff_nil in Hlen. rewrite Hlen. simpl.
    rewrite app_nil_r. f_equal. symmetry. apply DB_eta.
Qed.

(** The second load raises, and the store is as the first load left
    it. *)
Lemma load_raw_data_by_again raw :
  load_raw_data_by o2 raw (loaded_by o1 raw)
  = (loaded_by o1 raw, inl (rerun_error raw)).
Proof.
  unfold load_raw_data_by, bind, execute, execute_or_raise.
  rewrite insert_instruments_by_again, insert_expiries_by_again,
    insert_trades_by_again.
  unfold rerun_error. destruct (existsb loadable raw); [reflexivity|].
  unfold create_index. rewrite loaded_by_indexes. reflexivity.
Qed.

Lemma create_duckdb_schema_again raw :
  create_duckdb_schema (loaded_by o1 raw) = (loaded_by o1 raw, inr tt).
Proof.
  unfold create_duckdb_schema, execute. f_equal.
  rewrite (DB_eta (loaded_by o1 raw)) at 6. f_equal.
  now rewrite loaded_by_exchanges.
Qed.

End SecondLoad.

Lemma main_by_store `{TryCast} o csv db :
  main_by o csv db
  = match create_raw_data csv with
    | inl e => (fst (create_duckdb_schema db), inl e)
    | inr raw => load_raw_data_by o raw (fst (create_duckdb_schema db))
    end.
Proof.
  unfold main_by, bind, create_duckdb_schema, execute, raise.
  now destruct (create_raw_data csv).
Qed.

(** C3: [main] run on a new store and then run again over the same file
    leaves the instruments and expiries tables, hence their row counts,
    as the first run left them, whatever order the engine picks in either
    run for the rows it numbers and inserts.  On a second load every
    instruments candidate carries an id the first load has used and every
    expiries candidate a contract tuple the first load has stored, so
    ON CONFLICT DO NOTHING skips them all and nothing raises in the two
    dimension statements. *)
Theorem C3_dimension_insert_idempotent `{TryCast} (o1 o2 : Order) csv :
  (forall raw,
      insert_instruments_by o2 raw (loaded_by o1 raw) = loaded_by o1 raw
      /\ insert_expiries_by o2 raw (loaded_by o1 raw) = loaded_by o1 raw)
  /\ instruments (fst (main_by o2 csv (fst (main_by o1 csv empty_db))))
     = instruments (fst (main_by o1 csv empty_db))
  /\ expiries (fst (main_by o2 csv (fst (main_by o1 csv empty_db))))
     = expiries (fst (main_by o1 csv empty_db))
  /\ List.length (instruments (fst (main_by o2 csv (fst (main_by o1 csv empty_db)))))
     = List.length (instruments (fst (main_by o1 csv empty_db)))
  /\ List.length (expiries (fst (main_by o2 csv (fst (main_by o1 csv empty_db)))))
     = List.length (expiries (fst (main_by o1 csv empty_db))).
Proof.
  split.
  { intros raw. split;
      [apply insert_instruments_by_again | apply insert_expiries_by_again]. }
  assert (E : fst (main_by o2 csv (fst (main_by o1 csv empty_db)))
              = fst (main_by o1 csv empty_db)).
  { rewrite (main_by_store o1 csv empty_db). fold fresh_db.
    destruct (create_raw_data csv) as [e|raw] eqn:Ecsv.
    - simpl. rewrite main_by_store, Ecsv. reflexivity.
    - fold (loaded_by o1 raw).
      rewrite main_by_store, Ecsv, create_duckdb_schema_again. simpl.
      now rewrite load_raw_data_by_again. }
  rewrite E. auto.
Qed.

(** On a store that is not new the order matters: with an expiries row
    there that has the key of one contract and the id another would get,
    the load in file order adds nothing and the load in the reverse order
    adds a row.  Hence the new store above. *)
Example used_store_is_order_dependent :
  let db := mkDB seed_exchanges [Sample.future_instrument]
                 [mkExpiry 2 (Some 1) (Some Sample.expiry) (Some 0)
                           (Some "XX"%string)] [] [] in
  let raw := [Sample.future; Sample.later_future] in
  List.length (expiries (insert_expiries_by file_order raw db)) = 1%nat
  /\ List.length (expiries (insert_expiries_by reverse_order raw db)) = 2%nat.
Proof. split; reflexivity. Qed.

(** X5: under any order a first load of raw_data into a new store ends
    without exception, and a run of [main]'s statements again over the
    store it left, under any other order, raises and changes nothing: no
    row is added to any table and no index.  The exception is the
    Constraint Error of the trades statement, which has no ON CONFLICT
    clause, when raw_data has a loadable record, and else the Catalog
    Error of the first CREATE INDEX. *)
Theorem second_load_raises_and_changes_nothing (o1 o2 : Order) raw :
  load_raw_data_by o1 raw fresh_db = (loaded_by o1 raw, inr tt)
  /\ bind create_duckdb_schema (fun _ => load_raw_data_by o2 raw)
          (loaded_by o1 raw)
     = (loaded_by o1 raw, inl (rerun_error raw)).
Proof.
  split.
  - rewrite (surjective_pairing (load_raw_data_by o1 raw fresh_db)).
    now rewrite loaded_by_ok.
  - unfold bind. rewrite create_duckdb_schema_again.
    apply load_raw_data_by_again.
Qed.

(* ------------------------------------------------------------------ *)
(** *** Records that never reach the fact table, on any store *)

Lemma trade_source_loadable raw db :
  trade_source raw db = trade_source (filter loadable raw) db.
Proof.
  unfold trade_source, Sql.join.
  rewrite !filter_flat_map, !flat_map_flat_map.
  apply flat_map_skip. intros r Hl. apply loadable_false in Hl.
  apply flat_map_nil. intros x Hx. apply in_map_iff in Hx.
  destruct Hx as [i [<- Hi]]. apply filter_In in Hi.
  destruct Hi as [_ Hon]. apply on_instrument_true in Hon.
  destruct Hon as [_ [Ha Hb]].
  destruct Hl as [Hl|[Hl|[Hl|Hl]]]; try contradiction.
  - now rewrite expiry_no_match.
  - apply filter_none. intros y Hy. apply in_map_iff in Hy.
    destruct Hy as [e [<- _]]. simpl. now rewrite Hl.
Qed.

Lemma insert_trades_by_raises o raw db :
  (exists e, insert_trades_by o raw db = inl e)
  <-> exists k, In k (map fst (Sql.row_number (trade_source raw db)))
                /\ In k (map trd_id (trades db)).
Proof.
  unfold insert_trades_by.
  pose proof (trade_rows_by_ids o raw db) as P.
  destruct (existsb _ (trade_rows_by o raw db)) eqn:E.
  - split; [intros _|eauto].
    apply existsb_exists in E. destruct E as [c [Hc E]].
    apply existsb_exists in E. destruct E as [x [Hx E]].
    apply Z.eqb_eq in E. exists (trd_id c). split.
    + apply (Permutation_in _ P). now apply in_map.
    + rewrite E. now apply in_map.
  - split; [intros [e He]; discriminate|].
    intros [k [Hk Hk']]. exfalso.
    apply (Permutation_in _ (Permutation_sym P)) in Hk.
    apply in_map_iff in Hk, Hk'.
    destruct Hk as [c [Hc Hcin]], Hk' as [x [Hx Hxin]].
    assert (existsb (fun c => existsb (fun x => trd_id c =? trd_id x) (trades db))
                    (trade_rows_by o raw db) = true); [|congruence].
    apply existsb_exists. exists c. split; auto.
    apply existsb_exists. exists x. split; auto.
    apply Z.eqb_eq. congruence.
Qed.

(** X10: on any store and under any order, the records with a NULL
    instrument, symbol, expiry date or timestamp give the trades statement
    nothing to insert: with and without them it joins the same rows, its
    candidates are the same up to their order and the trade_ids they
    get, and it raises in the one case exactly when it raises in the
    other. *)
Theorem unloadable_records_add_no_trade (o1 o2 : Order) raw db :
  trade_source raw db = trade_source (filter loadable raw) db
  /\ Permutation (map without_id (trade_rows_by o1 raw db))
                 (map without_id (trade_rows_by o2 (filter loadable raw) db))
  /\ ((exists e, insert_trades_by o1 raw db = inl e)
      <-> (exists e, insert_trades_by o2 (filter loadable raw) db = inl e)).
Proof.
  pose proof (trade_source_loadable raw db) as E.
  split; [exact E|]. split.
  - rewrite !trade_rows_by_content. now rewrite <- E.
  - rewrite !insert_trades_by_raises. now rewrite <- E.
Qed.

(* ------------------------------------------------------------------ *)
(** *** The first load, whatever the order *)

(** X14: under any order the engine picks, a first load of raw_data
    into a new store ends without exception; the instruments table has
    one row for each distinct (instrument, symbol) pair of raw_data, with
    the ids 1 to their number; no two expiries rows share an id or a
    contract tuple; and the trades table has, in some order, exactly one
    fact row for each record with instrument, symbol, expiry date and
    timestamp, with the trade_ids 1 to their number. *)
Theorem first_load_under_any_order (o : Order) raw :
  snd (load_raw_data_by o raw fresh_db) = inr tt
  /\ Permutation (map ins_key (instruments (loaded_by o raw)))
                 (distinct_symbols raw)
  /\ Permutation (map ins_id (instruments (loaded_by o raw)))
                 (map fst (Sql.row_number (distinct_symbols raw)))
  /\ NoDup (map exp_id (expiries (loaded_by o raw)))
  /\ NoDup (map exp_key (expiries (loaded_by o raw)))
  /\ (exists rs,
         Permutation rs (filter loadable raw)
         /\ Forall2 (fact_row (loaded_by o raw)) (trades (loaded_by o raw)) rs)
  /\ Permutation (map trd_id (trades (loaded_by o raw)))
                 (map fst (Sql.row_number (filter loadable raw))).
Proof.
  destruct (loaded_by_keys o raw) as [_ [_ [Hid Hkey]]].
  rewrite loaded_by_instruments.
  repeat split; auto using loaded_by_ok, instrument_rows_by_keys,
    instrument_rows_by_ids, loaded_by_trades_spec, loaded_by_trade_ids.
Qed.

(* ------------------------------------------------------------------ *)
(** *** The volume histogram reads the defaulted measures *)

Lemma Permutation_filter {A : Type} (p : A -> bool) l l' :
  Permutation l l' -> Permutation (filter p l) (filter p l').
Proof.
  induction 1 as [|x l l' _ IH|x y l|l l' l'' _ IH1 _ IH2]; simpl.
  - constructor.
  - destruct (p x); auto.
  - destruct (p x), (p y); auto. apply perm_swap.
  - now transitivity (filter p l').
Qed.

Lemma positive_contracts ts rs :
  Forall2 (fun t r => trd_contracts t = Some (or_zero (raw_contracts r))) ts rs ->
  map trd_contracts
      (filter (fun t => Sql.is_true (sql_gt (trd_contracts t) (Some 0))) ts)
  = map Some (filter (fun v => 0 <? v)
                     (map (fun r => or_zero (raw_contracts r)) rs)).
Proof.
  induction 1 as [|t r ts rs Htr _ IH]; simpl; [reflexivity|].
  rewrite Htr. simpl. destruct (0 <? or_zero (raw_contracts r)); simpl;
    now rewrite ?Htr, IH.
Qed.

(** X13: after a first load, under any order of the load and of the
    query, the volumes [plot_volume_distribution] reads are the first
    100000 of some arrangement of the positive contract counts of the
    loadable records: a record whose CONTRACTS is NULL was stored with 0
    and is left out together with the true zeros, no NULL reaches the
    histogram, and with at most 100000 positive counts all of them do. *)
Theorem volume_distribution_after_load (o1 o2 : Order) raw :
  exists vs,
    Permutation vs
      (filter (fun v => 0 <? v)
              (map (fun r => or_zero (raw_contracts r)) (filter loadable raw)))
    /\ volume_distribution_by o2 (loaded_by o1 raw)
       = map Some (firstn (Z.to_nat 100000) vs).
Proof.
  unfold volume_distribution_by.
  destruct (loaded_by_trades_spec o1 raw) as [rs [Prs Hrows]].
  assert (Hm : Forall2 (fun t r => trd_contracts t
                                   = Some (or_zero (raw_contracts r)))
                       (trades (loaded_by o1 raw)) rs).
  { eapply Forall2_impl; [|exact Hrows].
    intros t r Hrow. apply fact_row_measures in Hrow. apply Hrow. }
  rewrite (positive_contracts _ _ Hm).
  match goal with
  | |- context [scan o2 (map Some ?l)] =>
      pose proof (scan_perm o2 _ (map Some l)) as P
  end.
  apply Permutation_map_inv in P. destruct P as [vs [E Pvs]].
  exists vs. split.
  - transitivity (filter (fun v => 0 <? v)
                         (map (fun r => or_zero (raw_contracts r)) rs)).
    + now apply Permutation_sym.
    + now apply Permutation_filter, Permutation_map.
  - rewrite E. apply firstn_map.
Qed.

(* ------------------------------------------------------------------ *)
(** *** What a failed load leaves behind *)

Lemma create_index_cases name db :
  (create_index name db = inl CatalogError /\ In name (indexes db))
  \/ (create_index name db
      = inr (mkDB (exchanges db) (instruments db) (expiries db) (trades db)
                  (indexes db ++ [name]))
      /\ ~ In name (indexes db)).
Proof.
  unfold create_index. destruct (existsb (String.eqb name) (indexes db)) eqn:E.
  - left. split; auto. apply existsb_exists in E. destruct E as [n [Hn E]].
    apply String.eqb_eq in E. now subst n.
  - right. split; auto. intros Hin.
    assert (existsb (String.eqb name) (indexes db) = true); [|congruence].
    apply existsb_exists. exists name. split; auto. apply String.eqb_refl.
Qed.

(** X4: the store after the statements of [load_data_duckdb] that
    follow raw_data, on any store and under any order, by outcome.  The
    two dimension statements are committed in every case.  A Constraint
    Error means a candidate of the trades statement has a trade_id that
    is taken; then no fact row and no index was added.  A Catalog Error
    means an index of the script was there already; it comes after the
    fact rows were appended, as in a load without exception, which adds
    the three indexes as well.  No other exception is raised here. *)
Theorem load_outcomes (o : Order) raw db :
  instruments (fst (load_raw_data_by o raw db))
  = instruments (insert_instruments_by o raw db)
  /\ expiries (fst (load_raw_data_by o raw db))
     = expiries (insert_expiries_by o raw (insert_instruments_by o raw db))
  /\ match snd (load_raw_data_by o raw db) with
     | inl InvalidInputError => False
     | inl ConstraintError =>
         trades (fst (load_raw_data_by o raw db)) = trades db
         /\ indexes (fst (load_raw_data_by o raw db)) = indexes db
         /\ exists c t,
              In c (trade_rows_by o raw (fst (load_raw_data_by o raw db)))
              /\ In t (trades db) /\ trd_id c = trd_id t
     | inl CatalogError =>
         trades (fst (load_raw_data_by o raw db))
         = trades db ++ trade_rows_by o raw (fst (load_raw_data_by o raw db))
         /\ exists name,
              In name ["idx_trades_instrument"; "idx_trades_date";
                       "idx_trades_symbol_date"]%string
              /\ In name (indexes db)
     | inr tt =>
         trades (fst (load_raw_data_by o raw db))
         = trades db ++ trade_rows_by o raw (fst (load_raw_data_by o raw db))
         /\ indexes (fst (load_raw_data_by o raw db))
            = indexes db ++ ["idx_trades_instrument"; "idx_trades_date";
                             "idx_trades_symbol_date"]%string
     end.
Proof.
  unfold load_raw_data_by, bind, execute, execute_or_raise.
  set (d2 := insert_expiries_by o raw (insert_instruments_by o raw db)).
  unfold insert_trades_by.
  destruct (existsb _ (trade_rows_by o raw d2)) eqn:E.
  - cbn [fst snd]. repeat split; auto.
    apply existsb_exists in E. destruct E as [c [Hc E]].
    apply existsb_exists in E. destruct E as [t [Ht E]].
    apply Z.eqb_eq in E. exists c, t. auto.
  - set (d3 := mkDB (exchanges d2) (instruments d2) (expiries d2)
                    (trades d2 ++ trade_rows_by o raw d2) (indexes d2)).
    destruct (create_index_cases "idx_trades_instrument" d3)
      as [[-> H1]|[-> H1]]; cbn [fst snd].
    { repeat split; auto. eexists. split; [|exact H1]. simpl. auto. }
    match goal with
    | |- context [create_index "idx_trades_date" ?d] => set (d4 := d)
    end.
    destruct (create_index_cases "idx_trades_date" d4)
      as [[-> H2]|[-> H2]]; cbn [fst snd].
    { repeat split; auto. unfold d4 in H2. cbn [indexes] in H2.
      apply in_app_or in H2. destruct H2 as [H2|[H2|[]]]; [|discriminate].
      eexists. split; [|exact H2]. simpl. auto. }
    match goal with
    | |- context [create_index "idx_trades_symbol_date" ?d] => set (d5 := d)
    end.
    destruct (create_index_cases "idx_trades_symbol_date" d5)
      as [[-> H3]|[-> H3]]; cbn [fst snd].
    { repeat split; auto. unfold d5, d4 in H3. cbn [indexes] in H3.
      apply in_app_or in H3. destruct H3 as [H3|[H3|[]]]; [|discriminate].
      apply in_app_or in H3. destruct H3 as [H3|[H3|[]]]; [|discriminate].
      eexists. split; [|exact H3]. simpl. auto. }
    repeat split; auto. unfold d5, d4, d3. cbn [indexes].
    now rewrite <- !app_assoc.
Qed.
